(** * Faster_RCNN/utils/transform.py : GeneralizedRCNNTransform

    A shallow embedding of the transform module (normalize, resize,
    batch_images, _onnx_batch_images, max_by_axis, postprocess, forward and
    resize_boxes) together with the properties of its specification.

    Modelling conventions.
    - Python integers are [Z]; tensor shapes are lists of [nat].
    - A tensor is its shape together with an element function on index
      lists; only the values at in-bounds indices are meaningful.
    - Python floats are exact rationals [Q]; the elements of torch tensors
      belong to an abstract scalar type with the operations the module uses
      ([TorchScalar]), instantiated with [Q] for the numeric examples and for
      the laws that need field arithmetic.  Rounding of binary floating
      point is therefore not part of the model.
    - Python exceptions are values of [exn]; fallible code lives in the
      [result] monad, code that mutates dictionaries in the [M] monad over a
      store of dictionary objects, so that aliasing between dictionaries is
      visible. *)

From Stdlib Require Import ZArith QArith Qround Field Lia Sorted.
From stdpp Require Import base option list gmap strings.

Local Open Scope Z_scope.

(** ** Exceptions and the error monad *)

Inductive message :=
| ExpectedImages3d (got : list nat)   (* "images is expected to be a list of 3d tensors of shape [C, H, W], got{image.shape}" *)
| UnpackMismatch.                     (* tuple unpacking with the wrong number of values *)

Inductive exn :=
| IndexError
| KeyError
| ZeroDivisionError
| RuntimeError
| NotImplementedError
| AssertionError
| ValueError (msg : message).

Inductive result (A : Type) :=
| Ok (a : A)
| Raise (e : exn).
Arguments Ok {A} a.
Arguments Raise {A} e.

#[global] Instance result_ret : MRet result := fun A a => Ok a.
#[global] Instance result_bind : MBind result := fun A B f m =>
  match m with
  | Ok a => f a
  | Raise e => Raise e
  end.
#[global] Instance result_fmap : FMap result := fun A B f m =>
  match m with
  | Ok a => Ok (f a)
  | Raise e => Raise e
  end.

(** Python sequence indexing [l[i]]: negative indices count from the end,
    anything outside [-len, len) raises IndexError. *)
Definition getitem {A} (l : list A) (i : Z) : result A :=
  let n := Z.of_nat (length l) in
  let j := if i <? 0 then n + i else i in
  if (j <? 0) || (n <=? j) then Raise IndexError
  else match l !! Z.to_nat j with
       | Some a => Ok a
       | None => Raise IndexError
       end.

(** Python item assignment [l[i] = x] for a non-negative index known to be
    in range (the callers have just read [l[i]]). *)
Definition setitem {A} (l : list A) (i : nat) (x : A) : list A := <[i := x]> l.

(** Monadic left fold: a [for] loop whose body may raise. *)
Fixpoint foldM {A B} (f : A -> B -> result A) (a : A) (l : list B) : result A :=
  match l with
  | [] => Ok a
  | b :: l' => a' ← f a b; foldM f a' l'
  end.

(** Monadic map: a list comprehension whose element expression may raise. *)
Fixpoint mapM {A B} (f : A -> result B) (l : list A) : result (list B) :=
  match l with
  | [] => Ok []
  | a :: l' => b ← f a; bs ← mapM f l'; Ok (b :: bs)
  end.

(** ** Scalars and tensors *)

(** The arithmetic of tensor elements (torch float32 in the source). *)
Class TorchScalar (F : Type) := {
  t_of_Z : Z -> F;          (* torch.tensor(n, dtype=torch.float32) *)
  t_sub : F -> F -> F;
  t_mul : F -> F -> F;
  t_div : F -> F -> F
}.

(** Exact rational arithmetic; division by zero is outside its validity. *)
#[global] Instance Q_scalar : TorchScalar Q := {|
  t_of_Z := inject_Z;
  t_sub := Qminus;
  t_mul := Qmult;
  t_div := Qdiv
|}.

Record tensor (F : Type) := Tensor {
  shape : list nat;
  data : list nat -> F
}.
Arguments Tensor {F} shape data.
Arguments shape {F} t.
Arguments data {F} t idx.

Definition dim {F} (t : tensor F) : nat := length (shape t).

(** [idx] addresses an element of a tensor of shape [shp]. *)
Fixpoint in_bounds (shp idx : list nat) : bool :=
  match shp, idx with
  | [], [] => true
  | s :: shp', i :: idx' => (i <? s)%nat && in_bounds shp' idx'
  | _, _ => false
  end.

(** Broadcasting of two shapes, aligned at their last axes (the shapes are
    given reversed). *)
Fixpoint broadcast_rev (a b : list nat) : result (list nat) :=
  match a, b with
  | [], _ => Ok b
  | _, [] => Ok a
  | x :: a', y :: b' =>
      rest ← broadcast_rev a' b';
      if (x =? y)%nat then Ok (x :: rest)
      else if (x =? 1)%nat then Ok (y :: rest)
      else if (y =? 1)%nat then Ok (x :: rest)
      else Raise RuntimeError
  end.

Definition broadcast_shapes (a b : list nat) : result (list nat) :=
  shp ← broadcast_rev (rev a) (rev b); Ok (rev shp).

(** The index of the source element that a broadcast tensor shows at [idx]:
    leading axes the source does not have are dropped, axes of size one are
    read at 0. *)
Definition bcast_index (src : list nat) (idx : list nat) : list nat :=
  zip_with (fun (s i : nat) => if (s =? 1)%nat then 0%nat else i)
           src (drop (length idx - length src) idx).

Section Tensors.
Context {F : Type} `{TorchScalar F}.

(** Element-wise binary operator with broadcasting ([a - b], [a / b]). *)
Definition broadcast_op (op : F -> F -> F) (a b : tensor F) : result (tensor F) :=
  shp ← broadcast_shapes (shape a) (shape b);
  Ok (Tensor shp (fun idx =>
        op (data a (bcast_index (shape a) idx))
           (data b (bcast_index (shape b) idx)))).

(** [torch.as_tensor(v)[:, None, None]] for a Python list [v]:
    shape [len v, 1, 1]. *)
Definition column_vector (v : list F) : tensor F :=
  Tensor [length v; 1%nat; 1%nat]
         (fun idx => match idx with
                     | c :: _ => default (t_of_Z 0) (v !! c)
                     | [] => t_of_Z 0
                     end).

(** [t[None]] : a new leading axis of size one. *)
Definition unsqueeze0 (t : tensor F) : tensor F :=
  Tensor (1%nat :: shape t) (fun idx => data t (tail idx)).

(** [t[i]] on the first axis. *)
Definition select0 (t : tensor F) (i : nat) : result (tensor F) :=
  match shape t with
  | n :: shp => if (i <? n)%nat then Ok (Tensor shp (fun idx => data t (i :: idx)))
                else Raise IndexError
  | [] => Raise IndexError
  end.

(** [t.new_full(shape, 0)]: negative sizes are refused. *)
Definition new_full (shp : list Z) (fill : F) : result (tensor F) :=
  if forallb (fun s => 0 <=? s) shp
  then Ok (Tensor (Z.to_nat <$> shp) (fun _ => fill))
  else Raise RuntimeError.

(** ** max_by_axis (lines 211-217) *)

(** The inner loop [for index, item in enumerate(sublist)]. *)
Fixpoint max_by_axis_inner (maxes : list Z) (index : nat) (sublist : list Z)
  : result (list Z) :=
  match sublist with
  | [] => Ok maxes
  | item :: rest =>
      m ← getitem maxes (Z.of_nat index);
      max_by_axis_inner (setitem maxes index (Z.max m item)) (S index) rest
  end.

Definition max_by_axis (the_list : list (list Z)) : result (list Z) :=
  maxes ← getitem the_list 0;
  foldM (fun maxes sublist => max_by_axis_inner maxes 0 sublist)
        maxes (drop 1 the_list).

(** ** batch_images (lines 88-126) *)

(** [int(math.ceil(float(m) / stride) * stride)] with
    [stride = float(size_divisible)]; Python float division raises on a
    zero divisor. *)
Definition round_up_py (m size_divisible : Z) : result Z :=
  if size_divisible =? 0 then Raise ZeroDivisionError
  else Ok (Qceiling (inject_Z m / inject_Z size_divisible) * size_divisible).

(** The shape of the slice [pad_img[: s0, : s1, : s2]] of a tensor of
    shape [slot]: slicing clamps at the size of the axis. *)
Definition slice3_shape (slot : list nat) (s0 s1 s2 : nat) : result (list nat) :=
  match slot with
  | m0 :: m1 :: m2 :: rest => Ok (Nat.min s0 m0 :: Nat.min s1 m1 :: Nat.min s2 m2 :: rest)
  | _ => Raise IndexError
  end.

(** One iteration of the copy loop: [pad_img] is slot [i] of the batch,
    [pad_img[: img.shape[0], : img.shape[1], : img.shape[2]].copy_(img)].
    [copy_] broadcasts its source to the shape of the slice and fails if
    that is impossible. *)
Definition copy_into_slot (i : nat) (img batched : tensor F) : result (tensor F) :=
  s0 ← getitem (shape img) 0;
  s1 ← getitem (shape img) 1;
  s2 ← getitem (shape img) 2;
  region ← slice3_shape (tail (shape batched)) s0 s1 s2;
  expanded ← broadcast_shapes (shape img) region;
  if decide (expanded = region)
  then Ok (Tensor (shape batched)
             (fun idx => match idx with
                         | j :: rest =>
                             if (j =? i)%nat && in_bounds region rest
                             then data img (bcast_index (shape img) rest)
                             else data batched idx
                         | [] => data batched idx
                         end))
  else Raise RuntimeError.

(** [for img, pad_img in zip(images, batched_imgs)]. *)
Fixpoint copy_loop (i : nat) (images : list (tensor F)) (batched : tensor F)
  : result (tensor F) :=
  match images with
  | [] => Ok batched
  | img :: rest =>
      batched' ← copy_into_slot i img batched;
      copy_loop (S i) rest batched'
  end.

(** ** _onnx_batch_images (lines 188-209) *)

(** [torch.max(torch.stack([img.shape[i] for img in images]))]. *)
Definition onnx_max_axis (images : list (tensor F)) (i : nat) : result Z :=
  sizes ← mapM (fun img => Z.of_nat <$> getitem (shape img) (Z.of_nat i)) images;
  match sizes with
  | [] => Raise RuntimeError
  | s :: rest => Ok (fold_left Z.max rest s)
  end.

(** [(torch.ceil(m.to(float32) / stride) * stride).to(int64)]: tensor
    division does not raise; with a zero stride the value is not a
    number and its conversion to an integer is the most negative int64,
    which no padding accepts. *)
Definition round_up_torch (m stride : Z) : Z :=
  if stride =? 0 then - 2 ^ 63
  else Qceiling (inject_Z m / inject_Z stride) * stride.

(** [torch.nn.functional.pad(img, [0, p2, 0, p1, 0, p0])]: constant
    padding (or cropping, for negative amounts) at the end of the last
    three axes. *)
Definition pad_last3 (img : tensor F) (p0 p1 p2 : Z) : result (tensor F) :=
  match rev (shape img) with
  | d2 :: d1 :: d0 :: lead =>
      let e2 := Z.of_nat d2 + p2 in
      let e1 := Z.of_nat d1 + p1 in
      let e0 := Z.of_nat d0 + p0 in
      if (e0 <? 0) || (e1 <? 0) || (e2 <? 0) then Raise RuntimeError
      else Ok (Tensor (rev (Z.to_nat e2 :: Z.to_nat e1 :: Z.to_nat e0 :: lead))
                 (fun idx => if in_bounds (shape img) idx then data img idx
                             else t_of_Z 0))
  | _ => Raise RuntimeError
  end.

(** [torch.stack(tensors)]: all shapes must agree. *)
Definition stack (ts : list (tensor F)) : result (tensor F) :=
  match ts with
  | [] => Raise RuntimeError
  | t0 :: _ =>
      if forallb (fun t => bool_decide (shape t = shape t0)) ts
      then Ok (Tensor (length ts :: shape t0)
                 (fun idx => match idx with
                             | i :: rest =>
                                 match ts !! i with
                                 | Some t => data t rest
                                 | None => t_of_Z 0
                                 end
                             | [] => t_of_Z 0
                             end))
      else Raise RuntimeError
  end.

Definition _onnx_batch_images (images : list (tensor F)) (size_divisible : Z)
  : result (tensor F) :=
  first ← getitem images 0;
  max_size ← mapM (onnx_max_axis images) (seq 0 (dim first));
  let stride := size_divisible in
  m1 ← getitem max_size 1;
  let max_size := setitem max_size 1 (round_up_torch m1 stride) in
  m2 ← getitem max_size 2;
  let max_size := setitem max_size 2 (round_up_torch m2 stride) in
  padded_imgs ← mapM (fun img =>
      let padding := zip_with Z.sub max_size (Z.of_nat <$> shape img) in
      p2 ← getitem padding 2;
      p1 ← getitem padding 1;
      p0 ← getitem padding 0;
      pad_last3 img p0 p1 p2) images;
  stack padded_imgs.

(** [tracing] is the value of [torchvision._is_tracing()]. *)
Definition batch_images (tracing : bool) (images : list (tensor F))
           (size_divisible : Z) : result (tensor F) :=
  if tracing then _onnx_batch_images images size_divisible
  else
    max_size ← max_by_axis ((fun img => Z.of_nat <$> shape img) <$> images);
    m1 ← getitem max_size 1;
    r1 ← round_up_py m1 size_divisible;
    let max_size := setitem max_size 1 r1 in
    m2 ← getitem max_size 2;
    r2 ← round_up_py m2 size_divisible;
    let max_size := setitem max_size 2 r2 in
    let batch_shape := Z.of_nat (length images) :: max_size in
    first ← getitem images 0;
    batched_imgs ← new_full batch_shape (t_of_Z 0);
    copy_loop 0 images batched_imgs.

End Tensors.

(** ** Python float helpers *)

(** [a / b] on Python floats. *)
Definition float_div (a b : Q) : result Q :=
  if Qeq_bool b 0 then Raise ZeroDivisionError else Ok (a / b)%Q.

(** [a > b] on Python numbers. *)
Definition float_gt (a b : Q) : bool := negb (Qle_bool a b).

(** [int(x)] on a Python float: truncation towards zero. *)
Definition int_of_float (x : Q) : Z := Z.quot (Qnum x) (Z.pos (Qden x)).

(** ** The transform *)

Section Transform.
Context {F : Type} `{TorchScalar F}.

(** The element values computed by bilinear interpolation
    ([F.interpolate(..., mode='bilinear', align_corners=False)]) belong to
    the tensor library; only the shape of its result is modelled. *)
Variable bilinear : tensor F -> Q -> list nat -> F.

(** The attributes set by [__init__]; [training] is the flag of
    [nn.Module]. *)
Record GeneralizedRCNNTransform := {
  training : bool;
  min_size : list Z;
  max_size : Z;
  image_mean : list F;
  image_std : list F
}.

(** The [min_size] argument of the constructor: a number or a sequence. *)
Inductive min_size_arg :=
| Scalar (n : Z)
| Sequence (l : list Z).

(** [__init__] (lines 22-29); a fresh module is in training mode. *)
Definition __init__ (min_size : min_size_arg) (max_size : Z)
           (image_mean image_std : list F) : GeneralizedRCNNTransform :=
  {| training := true;
     min_size := match min_size with
                 | Scalar n => [n]         (* not a list or tuple: (min_size,) *)
                 | Sequence l => l
                 end;
     max_size := max_size;
     image_mean := image_mean;
     image_std := image_std |}.

(** [self.eval()] and [self.train()]. *)
Definition set_training (mode : bool) (self : GeneralizedRCNNTransform)
  : GeneralizedRCNNTransform :=
  {| training := mode;
     min_size := min_size self;
     max_size := max_size self;
     image_mean := image_mean self;
     image_std := image_std self |}.

(** normalize (lines 31-38). *)
Definition normalize (self : GeneralizedRCNNTransform) (image : tensor F)
  : result (tensor F) :=
  let mean := column_vector (image_mean self) in
  let std := column_vector (image_std self) in
  centred ← broadcast_op t_sub image mean;
  broadcast_op t_div centred std.

(** torch_choice (lines 178-186); [u] is the number drawn by
    [torch.empty(1).uniform_(0., float(len(k)))]. *)
Definition torch_choice (k : list Z) (u : Q) : result Z :=
  let index := int_of_float u in
  getitem k index.

(** The target minimum edge of resize (lines 58-62). *)
Definition resize_size (self : GeneralizedRCNNTransform) (u : Q) : result Q :=
  if training self
  then inject_Z <$> torch_choice (min_size self) u
  else inject_Z <$> getitem (min_size self) (-1).

(** The scale factor of resize (lines 54-67) for an image whose last two
    axes are [h] and [w]. *)
Definition resize_scale_factor (self : GeneralizedRCNNTransform) (u : Q)
           (h w : nat) : result Q :=
  let im_min_size := inject_Z (Z.of_nat (Nat.min h w)) in
  let im_max_size := inject_Z (Z.of_nat (Nat.max h w)) in
  size ← resize_size self u;
  scale_factor ← float_div size im_min_size;
  if float_gt (im_max_size * scale_factor)%Q (inject_Z (max_size self))
  then float_div (inject_Z (max_size self)) im_max_size
  else Ok scale_factor.

(** [F.interpolate(input, scale_factor=s, mode='bilinear')]: a 4-D input
    [n, c, h, w] gives [n, c, floor(h * s), floor(w * s)]; empty inputs
    and empty outputs are refused, other ranks are not supported. *)
Definition interpolate (input : tensor F) (scale_factor : Q) : result (tensor F) :=
  match shape input with
  | [n; c; h; w] =>
      let oh := Qfloor (inject_Z (Z.of_nat h) * scale_factor) in
      let ow := Qfloor (inject_Z (Z.of_nat w) * scale_factor) in
      if (c =? 0)%nat || (h =? 0)%nat || (w =? 0)%nat || (oh <=? 0) || (ow <=? 0)
      then Raise RuntimeError
      else Ok (Tensor [n; c; Z.to_nat oh; Z.to_nat ow] (bilinear input scale_factor))
  | _ => Raise NotImplementedError
  end.

(** ** resize_boxes (lines 230-253) *)

(** [boxes.unbind(1)]: the slices along axis 1, as element functions of
    the remaining indices. *)
Definition unbind1 (boxes : tensor F) : result (list (nat -> list nat -> F)) :=
  match shape boxes with
  | _ :: k :: _ => Ok ((fun j n rest => data boxes (n :: j :: rest)) <$> seq 0 k)
  | _ => Raise IndexError
  end.

(** [torch.stack((c0, c1, c2, c3), dim=1)] for slices of a tensor of shape
    [shp]. *)
Definition stack1 (shp : list nat) (c0 c1 c2 c3 : nat -> list nat -> F) : tensor F :=
  Tensor shp (fun idx =>
    match idx with
    | n :: 0%nat :: rest => c0 n rest
    | n :: 1%nat :: rest => c1 n rest
    | n :: 2%nat :: rest => c2 n rest
    | n :: 3%nat :: rest => c3 n rest
    | _ => t_of_Z 0
    end).

Definition resize_boxes (boxes : tensor F) (original_size new_size : list Z)
  : result (tensor F) :=
  let ratios := zip_with (fun s s_orig => t_div (t_of_Z s) (t_of_Z s_orig))
                         new_size original_size in
  match ratios with
  | [ratios_height; ratios_width] =>
      cols ← unbind1 boxes;
      match cols with
      | [xmin; ymin; xmax; ymax] =>
          let xmin := fun n rest => t_mul (xmin n rest) ratios_width in
          let xmax := fun n rest => t_mul (xmax n rest) ratios_width in
          let ymin := fun n rest => t_mul (ymin n rest) ratios_height in
          let ymax := fun n rest => t_mul (ymax n rest) ratios_height in
          Ok (stack1 (shape boxes) xmin ymin xmax ymax)
      | _ => Raise (ValueError UnpackMismatch)
      end
  | _ => Raise (ValueError UnpackMismatch)
  end.

(** ** Dictionaries as objects *)

(** Targets and predictions are Python dictionaries that the module
    updates in place: a dictionary is an object in a store, named by its
    location. *)
Abbreviation loc := positive (only parsing).
Abbreviation heap := (gmap positive (gmap string (tensor F))) (only parsing).

(** Computations that may mutate dictionaries and may raise; the store
    keeps the mutations made before an exception. *)
Definition M (A : Type) : Type := heap -> result A * heap.

Definition ret {A} (a : A) : M A := fun σ => (Ok a, σ).
Definition raise {A} (e : exn) : M A := fun σ => (Raise e, σ).
Definition bind {A B} (m : M A) (k : A -> M B) : M B := fun σ =>
  match m σ with
  | (Ok a, σ') => k a σ'
  | (Raise e, σ') => (Raise e, σ')
  end.
Definition lift {A} (r : result A) : M A := fun σ => (r, σ).

(** [d[key]] for the dictionary at [l]. *)
Definition dict_get (l : loc) (key : string) : M (tensor F) := fun σ =>
  match default ∅ (σ !! l) !! key with
  | Some v => (Ok v, σ)
  | None => (Raise KeyError, σ)
  end.

(** [d[key] = v] for the dictionary at [l]. *)
Definition dict_set (l : loc) (key : string) (v : tensor F) : M unit := fun σ =>
  (Ok tt, <[l := <[key := v]> (default ∅ (σ !! l))]> σ).

#[local] Instance M_ret : MRet M := @ret.
#[local] Instance M_bind : MBind M := fun A B k m => bind m k.

(** [s[-2:]] on a shape. *)
Definition last2 (s : list nat) : list nat := drop (length s - 2) s.

(** ** resize (lines 40-86) *)

Definition resize (self : GeneralizedRCNNTransform) (u : Q)
           (image : tensor F) (target : option loc)
  : M (tensor F * option loc) :=
  match last2 (shape image) with
  | [h; w] =>
      scale_factor ← lift (resize_scale_factor self u h w);
      image ← lift (interpolate (unsqueeze0 image) scale_factor);
      image ← lift (select0 image 0);
      match target with
      | None => ret (image, target)
      | Some t =>
          bbox ← dict_get t "boxes";
          bbox ← lift (resize_boxes bbox [Z.of_nat h; Z.of_nat w]
                                    (Z.of_nat <$> last2 (shape image)));
          dict_set t "boxes" bbox;;
          ret (image, target)
      end
  | _ => raise (ValueError UnpackMismatch)
  end.

(** ** postprocess (lines 128-147) *)

(** The loop over [zip(result, image_shapes, original_image_sizes)];
    [result[i]] is the dictionary [pred] itself. *)
Fixpoint postprocess_loop (result : list loc)
         (image_shapes original_image_sizes : list (Z * Z)) : M unit :=
  match result, image_shapes, original_image_sizes with
  | pred :: result', im_s :: image_shapes', o_im_s :: original_image_sizes' =>
      boxes ← dict_get pred "boxes";
      boxes ← lift (resize_boxes boxes [im_s.1; im_s.2] [o_im_s.1; o_im_s.2]);
      dict_set pred "boxes" boxes;;
      postprocess_loop result' image_shapes' original_image_sizes'
  | _, _, _ => ret tt
  end.

Definition postprocess (self : GeneralizedRCNNTransform) (result : list loc)
           (image_shapes original_image_sizes : list (Z * Z)) : M (list loc) :=
  if training self then ret result
  else
    postprocess_loop result image_shapes original_image_sizes;;
    ret result.

(** ** forward (lines 149-176) *)

(** Modelled from the spec: the class ImageList of
    Faster_RCNN/utils/image_list.py, which pairs the batched tensor with
    the per-image (height, width) used before padding. *)
Record ImageList := {
  tensors : tensor F;
  image_sizes : list (nat * nat)
}.

(** The body of the loop over [range(len(images))] for index [i]. *)
Definition forward_image (self : GeneralizedRCNNTransform) (u : Q) (i : nat)
           (image : tensor F) (targets : option (list (option loc)))
  : M (tensor F * option (list (option loc))) :=
  target_index ← match targets with
                 | Some ts => lift (getitem ts (Z.of_nat i))
                 | None => ret None
                 end;
  if negb (dim image =? 3)%nat
  then raise (ValueError (ExpectedImages3d (shape image)))
  else
    image ← lift (normalize self image);
    '(image, target_index) ← resize self u image target_index;
    let targets := match targets, target_index with
                   | Some ts, Some _ => Some (setitem ts i target_index)
                   | _, _ => targets
                   end in
    ret (image, targets).

(** The loop itself, from index [i] on; [u j] is the random number
    available to iteration [j]. *)
Fixpoint forward_loop (self : GeneralizedRCNNTransform) (u : nat -> Q) (i : nat)
         (images : list (tensor F)) (targets : option (list (option loc)))
  : M (list (tensor F) * option (list (option loc))) :=
  match images with
  | [] => ret ([], targets)
  | image :: rest =>
      '(image, targets) ← forward_image self (u i) i image targets;
      '(rest, targets) ← forward_loop self u (S i) rest targets;
      ret (image :: rest, targets)
  end.

Definition forward (self : GeneralizedRCNNTransform) (tracing : bool)
           (u : nat -> Q) (images : list (tensor F))
           (targets : option (list (option loc)))
  : M (ImageList * option (list (option loc))) :=
  '(images, targets) ← forward_loop self u 0 images targets;
  let image_sizes := (fun img => last2 (shape img)) <$> images in
  images ← lift (batch_images tracing images 32);
  image_sizes_list ← lift (mapM (fun image_size =>
      match image_size with
      | [h; w] => Ok (h, w)
      | _ => Raise AssertionError        (* assert len(image_size) == 2 *)
      end) image_sizes);
  ret ({| tensors := images; image_sizes := image_sizes_list |}, targets).

End Transform.

(** * Vocabulary of the properties *)

(** The size of axis [k] of an image, and its maximum over a batch. *)
Definition axis_size {F} (k : nat) (img : tensor F) : Z :=
  Z.of_nat (default 0%nat (shape img !! k)).

Definition axis_max {F} (k : nat) (images : list (tensor F)) : Z :=
  match images with
  | [] => 0
  | img :: rest => fold_left Z.max (axis_size k <$> rest) (axis_size k img)
  end.

(** [ceil(m / stride) * stride] in exact arithmetic. *)
Definition padded (m stride : Z) : Z :=
  Qceiling (inject_Z m / inject_Z stride) * stride.

(** [m] is the largest size of axis [k] among [images]. *)
Definition is_axis_max {F} (k : nat) (images : list (tensor F)) (m : nat) : Prop :=
  (exists img, img ∈ images /\ shape img !! k = Some m) /\
  (forall img n, img ∈ images -> shape img !! k = Some n -> (n <= m)%nat).

(** [p] is the smallest multiple of [stride] that is at least [m]. *)
Definition is_least_multiple_above (stride : Z) (m p : nat) : Prop :=
  (stride | Z.of_nat p) /\ (m <= p)%nat /\
  (forall q : Z, (stride | q) -> Z.of_nat m <= q -> Z.of_nat p <= q).

(** What both packing paths compute: the padded shape, every image in the
    top-left corner of its slot, zero elsewhere. *)
Definition packed {F} `{TorchScalar F} (images : list (tensor F)) (stride : Z)
           (t : tensor F) : Prop :=
  shape t = [length images;
             Z.to_nat (axis_max 0 images);
             Z.to_nat (padded (axis_max 1 images) stride);
             Z.to_nat (padded (axis_max 2 images) stride)] /\
  forall i img rest, images !! i = Some img ->
    data t (i :: rest) = if in_bounds (shape img) rest then data img rest
                         else t_of_Z 0.

(** The entry [key] of the dictionary at [l], if both exist. *)
Definition entry {F} (σ : gmap positive (gmap string (tensor F))) (l : positive)
           (key : string) : option (tensor F) :=
  d ← σ !! l; d !! key.

(** Every prediction is a dictionary holding an [N, 4] tensor of boxes. *)
Definition has_boxes {F} (σ : gmap positive (gmap string (tensor F)))
           (pred : positive) : Prop :=
  exists boxes n, entry σ pred "boxes" = Some boxes /\ shape boxes = [n; 4%nat].

(** The effect of the loop of postprocess on the prediction [pred] paired
    with the sizes [im_s] and [o_im_s] (absent when a list is too short). *)
Definition rescaled_at {F} `{TorchScalar F}
           (σ σ' : gmap positive (gmap string (tensor F))) (pred : positive)
           (im_s o_im_s : option (Z * Z)) : Prop :=
  match im_s, o_im_s with
  | Some im_s, Some o_im_s =>
      exists d boxes boxes',
        σ !! pred = Some d /\ d !! "boxes" = Some boxes /\
        resize_boxes boxes [im_s.1; im_s.2] [o_im_s.1; o_im_s.2] = Ok boxes' /\
        σ' !! pred = Some (<["boxes" := boxes']> d)
  | _, _ => σ' !! pred = σ !! pred
  end.

(** The failures that come from an explicit check of the module (its
    [raise] and [assert] statements) rather than from an operation. *)
Definition is_explicit_check (e : exn) : bool :=
  match e with
  | AssertionError => true
  | ValueError (ExpectedImages3d _) => true
  | _ => false
  end.

(** [r] fails only through an operation, never through an explicit check. *)
Definition implicit_failure {A} (r : result A) : Prop :=
  forall e, r = Raise e -> is_explicit_check e = false.

(** [targets], when given, has an entry at index [i]. *)
Definition target_available {A} (targets : option (list A)) (i : nat) : Prop :=
  match targets with
  | Some ts => (i < length ts)%nat
  | None => True
  end.

(** The loop of forward stopped by the validation of image [k]: the
    iterations before [k] have completed, leaving the store [σ']. *)
Definition stopped_at {F} `{TorchScalar F} (bilinear : tensor F -> Q -> list nat -> F)
           (self : GeneralizedRCNNTransform) (u : nat -> Q) (i0 : nat)
           (images : list (tensor F)) (targets : option (list (option positive)))
           (σ : gmap positive (gmap string (tensor F))) (e : exn)
           (σ' : gmap positive (gmap string (tensor F))) : Prop :=
  exists k image done targets',
    images !! k = Some image /\ dim image <> 3%nat /\
    e = ValueError (ExpectedImages3d (shape image)) /\
    forward_loop bilinear self u i0 (take k images) targets σ
      = (Ok (done, targets'), σ') /\
    target_available targets (i0 + k).

(** ** Concrete inputs *)

(** Two images of different shapes, with distinct element values. *)
Definition img_a : tensor Q :=
  Tensor [1%nat; 2%nat; 3%nat] (fun idx => inject_Z (Z.of_nat (1 + list_sum idx))).
Definition img_b : tensor Q :=
  Tensor [2%nat; 1%nat; 5%nat] (fun idx => inject_Z (Z.of_nat (7 + list_sum idx))).

(** The boxes [[10, 10, 50, 50]]. *)
Definition example_boxes : tensor Q :=
  Tensor [1%nat; 4%nat]
         (fun idx => match idx with
                     | [_; 0%nat] | [_; 1%nat] => 10
                     | _ => 50
                     end)%Q.

(** Two predictions, the first one with a second entry. *)
Definition example_scores : tensor Q :=
  Tensor [1%nat] (fun _ => 9 # 10).

Definition example_predictions : gmap positive (gmap string (tensor Q)) :=
  {[ 1%positive := {[ "boxes" := example_boxes; "scores" := example_scores ]};
     2%positive := {[ "boxes" := example_boxes ]} ]}.

(** The configuration of the example of the specification. *)
Definition example_transform (training : bool) : @GeneralizedRCNNTransform Q :=
  set_training training
    (__init__ (Sequence [480; 512; 544; 576; 608; 640]) 1000
              [485 # 1000; 456 # 1000; 406 # 1000]%Q
              [229 # 1000; 224 # 1000; 225 # 1000]%Q).

(** An image of shape [3, 600, 800]. *)
Definition example_image : tensor Q :=
  Tensor [3%nat; 600%nat; 800%nat] (fun _ => 1 # 2).

(** A configuration whose sizes are not in increasing order. *)
Definition unsorted_transform : @GeneralizedRCNNTransform Q :=
  set_training false
    (__init__ (Sequence [640; 480]) 1000
              [485 # 1000; 456 # 1000; 406 # 1000]%Q
              [229 # 1000; 224 # 1000; 225 # 1000]%Q).

(** A four-channel image, a two-dimensional image, and a stand-in for the
    element values of the interpolation. *)
Definition rgba_image : tensor Q := Tensor [4%nat; 2%nat; 2%nat] (fun _ => 1 # 2).
Definition gray_image : tensor Q := Tensor [2%nat; 2%nat] (fun _ => 1 # 2).
Definition no_interpolation : tensor Q -> Q -> list nat -> Q := fun _ _ _ => 0%Q.

(** * Vocabulary and inputs of the further properties *)

(** The dictionaries that [targets] lists. *)
Definition listed (targets : option (list (option positive))) (l : positive) : Prop :=
  exists ts, targets = Some ts /\ Some l ∈ ts.

(** From [σ] to [σ'] only entries "boxes" of the dictionaries in [T] may
    have changed. *)
Definition only_boxes_changed {F} (T : positive -> Prop)
           (σ σ' : gmap positive (gmap string (tensor F))) : Prop :=
  (forall l key, key <> "boxes" -> entry σ' l key = entry σ l key) /\
  (forall l, ~ T l -> σ' !! l = σ !! l).



(** A one-channel image, an image with an empty axis, a very elongated
    image and a small image. *)
Definition mono_image : tensor Q := Tensor [1%nat; 2%nat; 2%nat] (fun _ => 1 # 2).
Definition empty_image : tensor Q := Tensor [3%nat; 0%nat; 5%nat] (fun _ => 1 # 2).
Definition long_image : tensor Q := Tensor [3%nat; 1%nat; 2000%nat] (fun _ => 1 # 2).
Definition small_image : tensor Q := Tensor [3%nat; 2%nat; 3%nat] (fun _ => 1 # 2).

(** A configuration without sizes. *)
Definition sizeless_transform : @GeneralizedRCNNTransform Q :=
  set_training false
    (__init__ (Sequence []) 1000
              [485 # 1000; 456 # 1000; 406 # 1000]%Q
              [229 # 1000; 224 # 1000; 225 # 1000]%Q).

(** A store whose only dictionary has no boxes. *)
Definition example_without_boxes : gmap positive (gmap string (tensor Q)) :=
  {[ 1%positive := {[ "scores" := example_scores ]} ]}.

(** * mnist/Net/AlexNet.py : returnAlexNet

    The function builds a fixed [nn.Sequential]; the model is the list of
    its layers with the arguments of the source, and the shape of the
    output of each layer on a batched input, as the layer classes document
    it.  The values of the weights are not part of the model. *)

Inductive layer :=
| Conv2d (in_channels out_channels : nat) (kernel_size : nat * nat)
         (stride : option (nat * nat)) (padding : nat)
| ReLU
| MaxPool2d (kernel_size stride : nat)
| Flatten
| Linear (in_features out_features : nat)
| Dropout (p : Q).

(** returnAlexNet (lines 4-28). *)
Definition returnAlexNet : list layer :=
  [ Conv2d 1 96 (11, 11) (Some (4, 4)) 1; ReLU;
    MaxPool2d 3 2;
    Conv2d 96 256 (5, 5) None 2; ReLU;
    MaxPool2d 3 2;
    Conv2d 256 384 (3, 3) None 1; ReLU;
    Conv2d 384 384 (3, 3) None 1; ReLU;
    Conv2d 384 256 (3, 3) None 1; ReLU;
    MaxPool2d 3 2;
    Flatten;
    Linear (256 * 5 * 5) 4096; ReLU;
    Dropout (1 # 2);
    Linear 4096 4096; ReLU;
    Dropout (1 # 2);
    Linear 4096 10 ]%nat.

(** The length of one spatial axis after a window of size [k] moved with
    step [s] over [n] cells padded by [p] on both sides:
    floor((n + 2p - k) / s) + 1, when the window fits. *)
Definition window_out (n k s p : nat) : result nat :=
  if ((n + 2 * p <? k) || (s =? 0))%nat then Raise RuntimeError
  else Ok ((n + 2 * p - k) / s + 1)%nat.

(** The shape of the output of one layer. *)
Definition layer_shape (l : layer) (input : list nat) : result (list nat) :=
  match l with
  | Conv2d cin cout (kh, kw) stride p =>
      let '(sh, sw) := default (1, 1)%nat stride in
      match input with
      | [n; c; h; w] =>
          if (c =? cin)%nat
          then h' ← window_out h kh sh p; w' ← window_out w kw sw p; Ok [n; cout; h'; w']
          else Raise RuntimeError
      | _ => Raise RuntimeError
      end
  | ReLU => Ok input
  | Dropout _ => Ok input
  | MaxPool2d k s =>
      match input with
      | [n; c; h; w] =>
          h' ← window_out h k s 0; w' ← window_out w k s 0; Ok [n; c; h'; w']
      | _ => Raise RuntimeError
      end
  | Flatten =>
      match input with
      | n :: rest => Ok [n; fold_right Nat.mul 1%nat rest]
      | [] => Raise RuntimeError
      end
  | Linear fin fout =>
      match rev input with
      | d :: lead => if (d =? fin)%nat then Ok (rev (fout :: lead)) else Raise RuntimeError
      | [] => Raise RuntimeError
      end
  end.

(** [nn.Sequential]: the layers in order. *)
Definition sequential_shape (net : list layer) (input : list nat) : result (list nat) :=
  foldM (fun shp l => layer_shape l shp) input net.

(** The length of an axis after the first convolution and after a pooling
    layer, and the spatial size in front of Flatten for an input axis of
    length [n]. *)
Definition conv1_out (n : nat) : nat := ((n + 2 - 11) / 4 + 1)%nat.
Definition pool_out (n : nat) : nat := ((n - 3) / 2 + 1)%nat.
Definition alexnet_features (n : nat) : nat :=
  pool_out (pool_out (pool_out (conv1_out n))).

(** The windows that one spatial axis goes through, in order. *)
Definition axis_chain (n : nat) : result nat :=
  c1 ← window_out n 11 4 1;
  p1 ← window_out c1 3 2 0;
  c2 ← window_out p1 5 1 2;
  p2 ← window_out c2 3 2 0;
  c3 ← window_out p2 3 1 1;
  c4 ← window_out c3 3 1 1;
  c5 ← window_out c4 3 1 1;
  window_out c5 3 2 0.

(** * Properties *)

(** ** Indexing and rounding *)

Lemma getitem_lookup {A} (l : list A) (i : nat) (x : A) :
  l !! i = Some x -> getitem l (Z.of_nat i) = Ok x.
Proof.
  intros Hl. unfold getitem.
  pose proof (lookup_lt_Some _ _ _ Hl) as Hlt.
  destruct (Z.ltb_spec (Z.of_nat i) 0); [lia|].
  destruct (Z.ltb_spec (Z.of_nat i) 0); [lia|].
  destruct (Z.leb_spec (Z.of_nat (length l)) (Z.of_nat i)); [lia|].
  simpl. rewrite Nat2Z.id, Hl. reflexivity.
Qed.

Lemma getitem_nil {A} (i : Z) : getitem (@nil A) i = Raise IndexError.
Proof.
  unfold getitem. cbn [length].
  destruct (_ || _); [reflexivity|].
  rewrite lookup_nil. reflexivity.
Qed.

Lemma Qceiling_div (a b : Z) : Qceiling (inject_Z a / inject_Z b) = - ((- a) / b).
Proof.
  unfold Qceiling. f_equal.
  rewrite Zdiv_Qdiv. apply Qfloor_comp.
  rewrite inject_Z_opp. unfold Qdiv. ring.
Qed.

Lemma round_up_least (m s : Z) :
  0 < s -> 0 <= m ->
  let r := Qceiling (inject_Z m / inject_Z s) * s in
  (s | r) /\ m <= r /\ (forall k, (s | k) -> m <= k -> r <= k).
Proof.
  intros Hs Hm r. subst r. rewrite Qceiling_div.
  split; [apply Z.divide_factor_r|].
  pose proof (Z.div_mod (- m) s ltac:(lia)) as Hdm.
  pose proof (Z.mod_pos_bound (- m) s Hs) as Hb.
  split; [nia|].
  intros k [q ->] Hk.
  assert (- (- m / s) <= q); [|nia].
  assert (- q <= - m / s); [|lia].
  apply Z.div_le_lower_bound; nia.
Qed.

(** ** Batch packing: max_by_axis *)

Section BatchProofs.
Context {F : Type} `{TorchScalar F}.

Lemma dim3_shape (img : tensor F) :
  dim img = 3%nat -> exists c h w, shape img = [c; h; w].
Proof.
  unfold dim. destruct (shape img) as [|c [|h [|w [|? ?]]]]; try discriminate.
  eauto.
Qed.

Lemma fold_max_ge (l : list Z) (a : Z) :
  a <= fold_left Z.max l a /\ Forall (fun x => x <= fold_left Z.max l a) l.
Proof.
  revert a. induction l as [|x l IH]; intros a; simpl.
  - split; [lia|constructor].
  - destruct (IH (Z.max a x)) as [H1 H2]. split; [lia|].
    constructor; [lia|assumption].
Qed.

Lemma fold_max_in (l : list Z) (a : Z) :
  fold_left Z.max l a = a \/ fold_left Z.max l a ∈ l.
Proof.
  revert a. induction l as [|x l IH]; intros a; simpl; [left; reflexivity|].
  destruct (IH (Z.max a x)) as [E|E].
  - rewrite E. destruct (Z.max_spec a x) as [[_ ->]|[_ ->]];
      [right; left | left; reflexivity].
  - right. right. exact E.
Qed.

Lemma max_by_axis_inner3 (a b c x y z : Z) :
  max_by_axis_inner [a; b; c] 0 [x; y; z] = Ok [Z.max a x; Z.max b y; Z.max c z].
Proof. reflexivity. Qed.

Lemma max_by_axis_fold (rest : list (tensor F)) (a b c : Z) :
  Forall (fun img => dim img = 3%nat) rest ->
  foldM (fun maxes sublist => max_by_axis_inner maxes 0 sublist) [a; b; c]
        ((fun img => Z.of_nat <$> shape img) <$> rest)
  = Ok [fold_left Z.max (axis_size 0 <$> rest) a;
        fold_left Z.max (axis_size 1 <$> rest) b;
        fold_left Z.max (axis_size 2 <$> rest) c].
Proof.
  intros Hall. revert a b c. induction Hall as [|img rest Himg _ IH]; intros a b c.
  - reflexivity.
  - destruct (dim3_shape _ Himg) as (ci & hi & wi & Hs).
    cbn [fmap list_fmap foldM]. rewrite Hs. cbn [list_fmap].
    change (Z.of_nat <$> [ci; hi; wi]) with [Z.of_nat ci; Z.of_nat hi; Z.of_nat wi].
    rewrite max_by_axis_inner3. cbn [mbind result_bind].
    rewrite IH. unfold axis_size. rewrite Hs. reflexivity.
Qed.

Lemma max_by_axis_images (img : tensor F) (rest : list (tensor F)) :
  Forall (fun img => dim img = 3%nat) (img :: rest) ->
  max_by_axis ((fun img => Z.of_nat <$> shape img) <$> (img :: rest))
  = Ok [axis_max 0 (img :: rest); axis_max 1 (img :: rest); axis_max 2 (img :: rest)].
Proof.
  intros Hall. inversion Hall as [|? ? Himg Hrest]; subst.
  destruct (dim3_shape _ Himg) as (c & h & w & Hs).
  unfold max_by_axis.
  change ((fun img => Z.of_nat <$> shape img) <$> (img :: rest))
    with ((Z.of_nat <$> shape img) :: ((fun img => Z.of_nat <$> shape img) <$> rest)).
  rewrite (getitem_lookup _ 0%nat (Z.of_nat <$> shape img)) by reflexivity.
  cbn [mbind result_bind]. simpl (drop _ _). rewrite Hs.
  change (Z.of_nat <$> [c; h; w]) with [Z.of_nat c; Z.of_nat h; Z.of_nat w].
  rewrite drop_0, max_by_axis_fold by assumption.
  unfold axis_max, axis_size. rewrite Hs. reflexivity.
Qed.

Lemma axis_max_upper (k : nat) (images : list (tensor F)) (img : tensor F) :
  img ∈ images -> axis_size k img <= axis_max k images.
Proof.
  destruct images as [|img0 rest]; [intros Hin; inversion Hin|].
  intros Hin. unfold axis_max.
  destruct (fold_max_ge (axis_size k <$> rest) (axis_size k img0)) as [H1 H2].
  apply elem_of_cons in Hin as [->|Hin]; [exact H1|].
  rewrite Forall_forall in H2. apply H2.
  apply list_elem_of_fmap. eauto.
Qed.

Lemma axis_max_attained (k : nat) (images : list (tensor F)) :
  images <> [] -> exists img, img ∈ images /\ axis_size k img = axis_max k images.
Proof.
  destruct images as [|img0 rest]; [congruence|]. intros _. unfold axis_max.
  destruct (fold_max_in (axis_size k <$> rest) (axis_size k img0)) as [E|E].
  - exists img0. split; [left|congruence].
  - apply list_elem_of_fmap in E as (img & E & Hin).
    exists img. split; [right; exact Hin|congruence].
Qed.
End BatchProofs.

(** ** Batch packing: the copy loop *)

Lemma broadcast_rev_refl (l : list nat) : broadcast_rev l l = Ok l.
Proof.
  induction l as [|x l IH]; [reflexivity|].
  cbn [broadcast_rev]. rewrite IH. cbn [mbind result_bind].
  rewrite Nat.eqb_refl. reflexivity.
Qed.

Lemma broadcast_shapes_refl (l : list nat) : broadcast_shapes l l = Ok l.
Proof.
  unfold broadcast_shapes. rewrite broadcast_rev_refl.
  cbn [mbind result_bind]. rewrite rev_involutive. reflexivity.
Qed.

Lemma in_bounds_length (shp idx : list nat) :
  in_bounds shp idx = true -> length idx = length shp.
Proof.
  revert idx. induction shp as [|s shp IH]; intros [|i idx]; simpl; try discriminate.
  - reflexivity.
  - intros Hb. apply andb_true_iff in Hb as [_ Hb]. f_equal. apply IH. exact Hb.
Qed.

Lemma bcast_index_in_bounds (shp idx : list nat) :
  in_bounds shp idx = true -> bcast_index shp idx = idx.
Proof.
  intros Hb. unfold bcast_index.
  rewrite (in_bounds_length _ _ Hb), Nat.sub_diag, drop_0.
  revert idx Hb. induction shp as [|s shp IH]; intros [|i idx]; simpl; try discriminate.
  - reflexivity.
  - intros Hb. apply andb_true_iff in Hb as [Hi Hb].
    apply Nat.ltb_lt in Hi. rewrite (IH _ Hb).
    destruct (Nat.eqb_spec s 1); [f_equal; lia|reflexivity].
Qed.

Section CopyProofs.
Context {F : Type} `{TorchScalar F}.

Lemma copy_into_slot_spec (i : nat) (img batched : tensor F)
      (n c h w C Hh W : nat) :
  shape img = [c; h; w] -> shape batched = [n; C; Hh; W] ->
  (c <= C)%nat -> (h <= Hh)%nat -> (w <= W)%nat ->
  exists t, copy_into_slot i img batched = Ok t /\
    shape t = shape batched /\
    forall j rest, data t (j :: rest) =
      if (j =? i)%nat && in_bounds (shape img) rest then data img rest
      else data batched (j :: rest).
Proof.
  intros Hs Hb Hc Hh' Hw. unfold copy_into_slot. rewrite Hs, Hb.
  rewrite (getitem_lookup _ 0%nat c), (getitem_lookup _ 1%nat h),
    (getitem_lookup _ 2%nat w) by reflexivity.
  cbn [mbind result_bind tail slice3_shape].
  rewrite !Nat.min_l by assumption.
  rewrite broadcast_shapes_refl. cbn [mbind result_bind].
  rewrite decide_True by reflexivity.
  eexists. split; [reflexivity|]. split; [reflexivity|].
  intros j rest. cbn [data].
  destruct ((j =? i)%nat && in_bounds [c; h; w] rest) eqn:E; [|reflexivity].
  apply andb_true_iff in E as [_ E].
  rewrite bcast_index_in_bounds by exact E. reflexivity.
Qed.

Lemma copy_loop_spec (images : list (tensor F)) (i : nat) (batched : tensor F)
      (n C Hh W : nat) :
  shape batched = [n; C; Hh; W] ->
  Forall (fun img => exists c h w, shape img = [c; h; w] /\
                       (c <= C)%nat /\ (h <= Hh)%nat /\ (w <= W)%nat) images ->
  exists t, copy_loop i images batched = Ok t /\
    shape t = shape batched /\
    forall j rest, data t (j :: rest) =
      match (if decide (i <= j)%nat then images !! (j - i)%nat else None) with
      | Some img => if in_bounds (shape img) rest then data img rest
                    else data batched (j :: rest)
      | None => data batched (j :: rest)
      end.
Proof.
  intros Hb Hall. revert i batched Hb.
  induction Hall as [|img images (c & h & w & Hs & Hc & Hh' & Hw) _ IH];
    intros i batched Hb.
  - exists batched. split; [reflexivity|]. split; [reflexivity|].
    intros j rest. destruct (decide _); [rewrite lookup_nil|]; reflexivity.
  - destruct (copy_into_slot_spec i img batched n c h w C Hh W Hs Hb Hc Hh' Hw)
      as (t1 & E1 & Hs1 & Hd1).
    destruct (IH (S i) t1 ltac:(congruence)) as (t & E & Hst & Hd).
    exists t. cbn [copy_loop]. rewrite E1. cbn [mbind result_bind].
    split; [exact E|]. split; [congruence|].
    intros j rest. rewrite Hd, Hd1.
    destruct (decide (S i <= j)%nat) as [Hle|Hle].
    + rewrite decide_True by lia.
      replace (j - i)%nat with (S (j - S i)) by lia. cbn [lookup list_lookup].
      destruct (Nat.eqb_spec j i); [lia|]. cbn [andb]. reflexivity.
    + destruct (decide (i <= j)%nat) as [Hle'|Hle'].
      * assert (j = i) as -> by lia. rewrite Nat.sub_diag. cbn [lookup list_lookup].
        rewrite Nat.eqb_refl. cbn [andb]. reflexivity.
      * destruct (Nat.eqb_spec j i); [lia|]. reflexivity.
Qed.
End CopyProofs.

(** ** Batch packing: the path that copies in place *)

Lemma padded_ge (m s : Z) : 0 < s -> 0 <= m -> m <= padded m s.
Proof. intros Hs Hm. apply (round_up_least m s Hs Hm). Qed.

Lemma padded_least (m s : Z) :
  0 < s -> 0 <= m ->
  (s | padded m s) /\ m <= padded m s /\ (forall k, (s | k) -> m <= k -> padded m s <= k).
Proof. intros Hs Hm. apply (round_up_least m s Hs Hm). Qed.

Lemma mapM_Forall2 {A B} (R : A -> B -> Prop) (f : A -> result B) (l : list A) :
  Forall (fun x => exists y, f x = Ok y /\ R x y) l ->
  exists l', mapM f l = Ok l' /\ Forall2 R l l'.
Proof.
  induction 1 as [|x l (y & E & Hy) _ (l' & E' & Hl')].
  - exists []. split; [reflexivity|constructor].
  - exists (y :: l'). cbn [mapM]. rewrite E. cbn [mbind result_bind]. rewrite E'.
    split; [reflexivity|constructor; assumption].
Qed.

Lemma mapM_fmap {A B} (f : A -> result B) (g : A -> B) (l : list A) :
  Forall (fun x => f x = Ok (g x)) l -> mapM f l = Ok (g <$> l).
Proof.
  induction 1 as [|x l E _ IH]; [reflexivity|].
  cbn [mapM]. rewrite E. cbn [mbind result_bind]. rewrite IH. reflexivity.
Qed.

Section BatchSpec.
Context {F : Type} `{TorchScalar F}.

Lemma axis_size_nonneg (k : nat) (img : tensor F) : 0 <= axis_size k img.
Proof. unfold axis_size. lia. Qed.

Lemma axis_max_nonneg (k : nat) (images : list (tensor F)) : 0 <= axis_max k images.
Proof.
  destruct images as [|img rest]; [reflexivity|].
  pose proof (axis_max_upper k (img :: rest) img ltac:(left)).
  pose proof (axis_size_nonneg k img). lia.
Qed.

Lemma images_fit (images : list (tensor F)) (stride : Z) :
  0 < stride ->
  Forall (fun img => dim img = 3%nat) images ->
  Forall (fun img => exists c h w, shape img = [c; h; w] /\
            (c <= Z.to_nat (axis_max 0 images))%nat /\
            (h <= Z.to_nat (padded (axis_max 1 images) stride))%nat /\
            (w <= Z.to_nat (padded (axis_max 2 images) stride))%nat) images.
Proof.
  intros Hs Hall. rewrite Forall_forall in Hall. apply Forall_forall.
  intros img Hin. destruct (dim3_shape img (Hall img Hin)) as (c & h & w & E).
  exists c, h, w. split; [exact E|].
  pose proof (axis_max_upper 0 images img Hin) as H0.
  pose proof (axis_max_upper 1 images img Hin) as H1.
  pose proof (axis_max_upper 2 images img Hin) as H2.
  pose proof (padded_ge (axis_max 1 images) stride Hs (axis_max_nonneg _ _)).
  pose proof (padded_ge (axis_max 2 images) stride Hs (axis_max_nonneg _ _)).
  unfold axis_size in H0, H1, H2. rewrite E in H0, H1, H2.
  cbn in H0, H1, H2. lia.
Qed.

Lemma batch_images_eager_packed (images : list (tensor F)) (stride : Z) :
  images <> [] -> Forall (fun img => dim img = 3%nat) images -> 0 < stride ->
  exists t, batch_images false images stride = Ok t /\ packed images stride t.
Proof.
  intros Hne Hall Hs.
  destruct images as [|img0 rest] eqn:Eimages; [congruence|]. rewrite <- Eimages in *.
  assert (Hmax : max_by_axis ((fun img => Z.of_nat <$> shape img) <$> images)
                 = Ok [axis_max 0 images; axis_max 1 images; axis_max 2 images]).
  { rewrite Eimages. apply max_by_axis_images. rewrite <- Eimages. exact Hall. }
  unfold batch_images. rewrite Hmax. cbn [mbind result_bind].
  rewrite (getitem_lookup _ 1%nat (axis_max 1 images)) by reflexivity.
  cbn [mbind result_bind]. unfold round_up_py.
  destruct (Z.eqb_spec stride 0); [lia|]. cbn [mbind result_bind].
  unfold setitem. cbn [insert list_insert].
  rewrite (getitem_lookup _ 2%nat (axis_max 2 images)) by reflexivity.
  cbn [mbind result_bind]. cbn [insert list_insert].
  change (getitem images 0) with (getitem images (Z.of_nat 0%nat)).
  rewrite (getitem_lookup images 0%nat img0) by (rewrite Eimages; reflexivity).
  cbn [mbind result_bind].
  fold (padded (axis_max 1 images) stride). fold (padded (axis_max 2 images) stride).
  pose proof (axis_max_nonneg 0 images).
  pose proof (padded_ge _ stride Hs (axis_max_nonneg 1 images)).
  pose proof (padded_ge _ stride Hs (axis_max_nonneg 2 images)).
  pose proof (axis_max_nonneg 1 images). pose proof (axis_max_nonneg 2 images).
  unfold new_full. cbn [forallb].
  repeat match goal with
         | |- context [0 <=? ?x] => destruct (Z.leb_spec 0 x); [|lia]
         end.
  cbn [andb mbind result_bind fmap list_fmap].
  rewrite Nat2Z.id.
  match goal with
  | |- context [copy_loop 0 images ?b] =>
      destruct (copy_loop_spec images 0 b (length images) _ _ _ eq_refl
                  (images_fit images stride Hs Hall)) as (t & E & Hst & Hd)
  end.
  exists t. split; [exact E|]. split; [rewrite Hst; reflexivity|].
  intros i img rest' Hi. rewrite Hd. rewrite decide_True by lia.
  rewrite Nat.sub_0_r, Hi. reflexivity.
Qed.
End BatchSpec.

(** ** Batch packing: the export path *)

Section OnnxSpec.
Context {F : Type} `{TorchScalar F}.

Lemma onnx_max_axis_ok (images : list (tensor F)) (k : nat) :
  (k < 3)%nat -> images <> [] -> Forall (fun img => dim img = 3%nat) images ->
  onnx_max_axis images k = Ok (axis_max k images).
Proof.
  intros Hk Hne Hall. unfold onnx_max_axis.
  rewrite (mapM_fmap _ (axis_size k)).
  - cbn [mbind result_bind]. destruct images; [congruence|reflexivity].
  - eapply Forall_impl; [exact Hall|]. intros img Hd. cbn beta.
    destruct (dim3_shape img Hd) as (c & h & w & E).
    assert (exists v, shape img !! k = Some v) as [v Hv].
    { rewrite E. destruct k as [|[|[|k]]]; [eauto..|lia]. }
    rewrite (getitem_lookup _ k v Hv). unfold axis_size. rewrite Hv. reflexivity.
Qed.

Lemma pad_last3_fit (img : tensor F) (c h w : nat) (C Hh W : Z) :
  shape img = [c; h; w] ->
  Z.of_nat c <= C -> Z.of_nat h <= Hh -> Z.of_nat w <= W ->
  exists p, pad_last3 img (C - Z.of_nat c) (Hh - Z.of_nat h) (W - Z.of_nat w) = Ok p /\
    shape p = [Z.to_nat C; Z.to_nat Hh; Z.to_nat W] /\
    forall idx, data p idx = if in_bounds (shape img) idx then data img idx
                             else t_of_Z 0.
Proof.
  intros E Hc Hh' Hw. unfold pad_last3. rewrite E. cbn [rev app].
  replace (Z.of_nat w + (W - Z.of_nat w)) with W by lia.
  replace (Z.of_nat h + (Hh - Z.of_nat h)) with Hh by lia.
  replace (Z.of_nat c + (C - Z.of_nat c)) with C by lia.
  destruct (Z.ltb_spec C 0); [lia|]. destruct (Z.ltb_spec Hh 0); [lia|].
  destruct (Z.ltb_spec W 0); [lia|]. cbn [orb].
  eexists. split; [reflexivity|]. split; reflexivity.
Qed.

Lemma stack_spec (ts : list (tensor F)) (shp : list nat) :
  ts <> [] -> Forall (fun t => shape t = shp) ts ->
  exists t, stack ts = Ok t /\ shape t = length ts :: shp /\
    forall i p rest, ts !! i = Some p -> data t (i :: rest) = data p rest.
Proof.
  intros Hne Hall. destruct ts as [|t0 ts']; [congruence|].
  unfold stack. set (ts := t0 :: ts') in *.
  assert (Hshp : shape t0 = shp).
  { rewrite Forall_forall in Hall. apply Hall. left. }
  assert (Hb : forallb (fun t => bool_decide (shape t = shape t0)) ts = true).
  { apply forallb_forall. intros t Hin. apply bool_decide_eq_true.
    rewrite Forall_forall in Hall. rewrite Hshp. apply Hall.
    apply list_elem_of_In. exact Hin. }
  rewrite Hb. eexists. split; [reflexivity|]. split; [cbn; congruence|].
  intros i p rest Hi. cbn [data]. rewrite Hi. reflexivity.
Qed.

Lemma onnx_batch_images_packed (images : list (tensor F)) (stride : Z) :
  images <> [] -> Forall (fun img => dim img = 3%nat) images -> 0 < stride ->
  exists t, _onnx_batch_images images stride = Ok t /\ packed images stride t.
Proof.
  intros Hne Hall Hs.
  destruct images as [|img0 rest] eqn:Eimages; [congruence|]. rewrite <- Eimages in *.
  assert (Hd0 : dim img0 = 3%nat).
  { rewrite Forall_forall in Hall. apply Hall. rewrite Eimages. left. }
  unfold _onnx_batch_images.
  change (getitem images 0) with (getitem images (Z.of_nat 0%nat)).
  rewrite (getitem_lookup images 0%nat img0) by (rewrite Eimages; reflexivity).
  cbn [mbind result_bind]. rewrite Hd0. cbn [seq mapM].
  rewrite !onnx_max_axis_ok by (assumption || lia).
  cbn [mbind result_bind].
  rewrite (getitem_lookup _ 1%nat (axis_max 1 images)) by reflexivity.
  cbn [mbind result_bind]. unfold setitem. cbn [insert list_insert].
  rewrite (getitem_lookup _ 2%nat (axis_max 2 images)) by reflexivity.
  cbn [mbind result_bind insert list_insert].
  unfold round_up_torch. destruct (Z.eqb_spec stride 0); [lia|].
  fold (padded (axis_max 1 images) stride). fold (padded (axis_max 2 images) stride).
  set (C := axis_max 0 images). set (Hh := padded (axis_max 1 images) stride).
  set (W := padded (axis_max 2 images) stride).
  pose proof (axis_max_nonneg 0 images).
  pose proof (padded_ge _ stride Hs (axis_max_nonneg 1 images)).
  pose proof (padded_ge _ stride Hs (axis_max_nonneg 2 images)).
  pose proof (axis_max_nonneg 1 images). pose proof (axis_max_nonneg 2 images).
  match goal with
  | |- context [mapM ?f images] =>
      destruct (mapM_Forall2
        (fun (img p : tensor F) =>
           shape p = [Z.to_nat C; Z.to_nat Hh; Z.to_nat W] /\
           forall idx, data p idx = if in_bounds (shape img) idx then data img idx
                                    else t_of_Z 0) f images)
        as (ps & Eps & Hps)
  end.
  { apply Forall_forall. intros img Hin.
    pose proof (images_fit images stride Hs Hall) as Hfit.
    rewrite Forall_forall in Hfit.
    destruct (Hfit img Hin) as (c & h & w & E & Hc & Hh' & Hw).
    fold C Hh W in Hc, Hh', Hw.
    rewrite E. cbn [fmap list_fmap zip_with].
    rewrite (getitem_lookup _ 2%nat (W - Z.of_nat w)),
      (getitem_lookup _ 1%nat (Hh - Z.of_nat h)),
      (getitem_lookup _ 0%nat (C - Z.of_nat c)) by reflexivity.
    cbn [mbind result_bind].
    destruct (pad_last3_fit img c h w C Hh W E) as (p & Ep & Hsp & Hdp); [lia..|].
    exists p. rewrite E in Hdp. auto. }
  rewrite Eps. cbn [mbind result_bind].
  destruct (stack_spec ps [Z.to_nat C; Z.to_nat Hh; Z.to_nat W]) as (t & Et & Hst & Hdt).
  { apply Forall2_length in Hps. rewrite Eimages in Hps.
    destruct ps; [discriminate|congruence]. }
  { apply Forall_forall. intros p Hin. apply list_elem_of_lookup in Hin as [i Hi].
    destruct (Forall2_lookup_r _ _ _ _ _ Hps Hi) as (img & _ & Hsp & _). exact Hsp. }
  exists t. split; [exact Et|]. split.
  - rewrite Hst, <- (Forall2_length _ _ _ Hps). reflexivity.
  - intros i img rest' Hi.
    destruct (Forall2_lookup_l _ _ _ _ _ Hps Hi) as (p & Hp & _ & Hdp).
    rewrite (Hdt i p rest' Hp). apply Hdp.
Qed.
End OnnxSpec.

(** ** Batch packing: failures *)

Lemma broadcast_rev_error (a b : list nat) (e : exn) :
  broadcast_rev a b = Raise e -> e = RuntimeError.
Proof.
  revert b. induction a as [|x a IH]; intros [|y b]; cbn [broadcast_rev]; try discriminate.
  destruct (broadcast_rev a b) as [r|e'] eqn:E; cbn [mbind result_bind].
  - repeat destruct (_ =? _)%nat; congruence.
  - intros [= ->]. eapply IH. exact E.
Qed.

Lemma broadcast_shapes_error (a b : list nat) (e : exn) :
  broadcast_shapes a b = Raise e -> e = RuntimeError.
Proof.
  unfold broadcast_shapes.
  destruct (broadcast_rev (rev a) (rev b)) as [r|e'] eqn:E; cbn [mbind result_bind].
  - discriminate.
  - intros [= ->]. eapply broadcast_rev_error. exact E.
Qed.

Lemma mapM_error {A B} (f : A -> result B) (l : list A) (e : exn) :
  mapM f l = Raise e -> exists x, x ∈ l /\ f x = Raise e.
Proof.
  induction l as [|x l IH]; cbn [mapM]; [discriminate|].
  destruct (f x) as [y|e'] eqn:E; cbn [mbind result_bind].
  - destruct (mapM f l) as [ys|e'']; cbn [mbind result_bind]; [discriminate|].
    intros [= ->]. destruct (IH eq_refl) as (x' & Hin & Hx').
    exists x'. split; [right; exact Hin|exact Hx'].
  - intros [= ->]. exists x. split; [left|exact E].
Qed.

Section BatchSafety.
Context {F : Type} `{TorchScalar F}.

Lemma copy_loop_no_IndexError (images : list (tensor F)) (i : nat)
      (batched : tensor F) (n C Hh W : nat) :
  shape batched = [n; C; Hh; W] ->
  Forall (fun img => dim img = 3%nat) images ->
  copy_loop i images batched <> Raise IndexError.
Proof.
  intros Hb Hall. revert i batched Hb.
  induction Hall as [|img images Hd _ IH]; intros i batched Hb; [discriminate|].
  destruct (dim3_shape img Hd) as (c & h & w & E).
  cbn [copy_loop]. unfold copy_into_slot. rewrite E, Hb.
  rewrite (getitem_lookup _ 0%nat c), (getitem_lookup _ 1%nat h),
    (getitem_lookup _ 2%nat w) by reflexivity.
  cbn [mbind result_bind tail slice3_shape].
  destruct (broadcast_shapes _ _) as [r|e] eqn:Eb; cbn [mbind result_bind].
  - destruct (decide _); cbn [mbind result_bind]; [|discriminate].
    apply IH. reflexivity.
  - apply broadcast_shapes_error in Eb as ->. discriminate.
Qed.

Lemma batch_images_eager_no_IndexError (images : list (tensor F)) (stride : Z) :
  images <> [] -> Forall (fun img => dim img = 3%nat) images ->
  batch_images false images stride <> Raise IndexError.
Proof.
  intros Hne Hall.
  destruct images as [|img0 rest] eqn:Eimages; [congruence|]. rewrite <- Eimages in *.
  assert (Hmax : max_by_axis ((fun img => Z.of_nat <$> shape img) <$> images)
                 = Ok [axis_max 0 images; axis_max 1 images; axis_max 2 images]).
  { rewrite Eimages. apply max_by_axis_images. rewrite <- Eimages. exact Hall. }
  unfold batch_images. rewrite Hmax. cbn [mbind result_bind].
  rewrite (getitem_lookup _ 1%nat (axis_max 1 images)) by reflexivity.
  cbn [mbind result_bind]. unfold round_up_py.
  destruct (Z.eqb_spec stride 0); [discriminate|]. cbn [mbind result_bind].
  unfold setitem. cbn [insert list_insert].
  rewrite (getitem_lookup _ 2%nat (axis_max 2 images)) by reflexivity.
  cbn [mbind result_bind]. cbn [insert list_insert].
  change (getitem images 0) with (getitem images (Z.of_nat 0%nat)).
  rewrite (getitem_lookup images 0%nat img0) by (rewrite Eimages; reflexivity).
  cbn [mbind result_bind]. unfold new_full.
  destruct (forallb _ _); cbn [mbind result_bind]; [|discriminate].
  eapply copy_loop_no_IndexError; [reflexivity|exact Hall].
Qed.

Lemma batch_images_onnx_no_IndexError (images : list (tensor F)) (stride : Z) :
  images <> [] -> Forall (fun img => dim img = 3%nat) images ->
  _onnx_batch_images images stride <> Raise IndexError.
Proof.
  intros Hne Hall.
  destruct images as [|img0 rest] eqn:Eimages; [congruence|]. rewrite <- Eimages in *.
  assert (Hd0 : dim img0 = 3%nat).
  { rewrite Forall_forall in Hall. apply Hall. rewrite Eimages. left. }
  unfold _onnx_batch_images.
  change (getitem images 0) with (getitem images (Z.of_nat 0%nat)).
  rewrite (getitem_lookup images 0%nat img0) by (rewrite Eimages; reflexivity).
  cbn [mbind result_bind]. rewrite Hd0. cbn [seq mapM].
  rewrite !onnx_max_axis_ok by (assumption || lia).
  cbn [mbind result_bind].
  rewrite (getitem_lookup _ 1%nat (axis_max 1 images)) by reflexivity.
  cbn [mbind result_bind]. unfold setitem. cbn [insert list_insert].
  rewrite (getitem_lookup _ 2%nat (axis_max 2 images)) by reflexivity.
  cbn [mbind result_bind insert list_insert].
  destruct (mapM _ images) as [ps|e] eqn:Eps; cbn [mbind result_bind].
  - unfold stack. destruct ps; [discriminate|].
    destruct (forallb _ _); discriminate.
  - intros [= ->]. apply mapM_error in Eps as (img & Hin & Eimg).
    rewrite Forall_forall in Hall.
    destruct (dim3_shape img (Hall img Hin)) as (c & h & w & E).
    rewrite E in Eimg. cbn [fmap list_fmap zip_with] in Eimg.
    match type of Eimg with
    | context [getitem [?a; ?b; ?d] 2] =>
        change (getitem [a; b; d] 2) with (Ok d) in Eimg;
        change (getitem [a; b; d] 1) with (Ok b) in Eimg;
        change (getitem [a; b; d] 0) with (Ok a) in Eimg
    end.
    cbn [mbind result_bind] in Eimg. unfold pad_last3 in Eimg.
    rewrite E in Eimg. cbn [rev app] in Eimg.
    destruct (_ || _) in Eimg; discriminate.
Qed.

Lemma batch_images_empty (tracing : bool) (stride : Z) :
  batch_images tracing (@nil (tensor F)) stride = Raise IndexError.
Proof. destruct tracing; reflexivity. Qed.

Lemma packed_shape_spec (images : list (tensor F)) (stride : Z) :
  images <> [] -> Forall (fun img => dim img = 3%nat) images -> 0 < stride ->
  is_axis_max 0 images (Z.to_nat (axis_max 0 images)) /\
  (exists mh, is_axis_max 1 images mh /\
     is_least_multiple_above stride mh (Z.to_nat (padded (axis_max 1 images) stride))) /\
  (exists mw, is_axis_max 2 images mw /\
     is_least_multiple_above stride mw (Z.to_nat (padded (axis_max 2 images) stride))).
Proof.
  intros Hne Hall Hs.
  assert (Hmax : forall k, (k < 3)%nat -> is_axis_max k images (Z.to_nat (axis_max k images))).
  { intros k Hk. split.
    - destruct (axis_max_attained k images Hne) as (img & Hin & E).
      exists img. split; [exact Hin|].
      rewrite Forall_forall in Hall.
      destruct (dim3_shape img (Hall img Hin)) as (c & h & w & Es).
      rewrite <- E. unfold axis_size. rewrite Nat2Z.id, Es.
      destruct k as [|[|[|k]]]; [reflexivity..|lia].
    - intros img n Hin Hn. pose proof (axis_max_upper k images img Hin) as Hle.
      unfold axis_size in Hle. rewrite Hn in Hle. cbn in Hle. lia. }
  assert (Hpad : forall k, is_least_multiple_above stride (Z.to_nat (axis_max k images))
                   (Z.to_nat (padded (axis_max k images) stride))).
  { intros k. pose proof (axis_max_nonneg k images) as Hnn.
    destruct (padded_least (axis_max k images) stride Hs Hnn) as (Hdiv & Hge & Hleast).
    unfold is_least_multiple_above. rewrite !Z2Nat.id by lia.
    split; [exact Hdiv|]. split; [lia|exact Hleast]. }
  split; [apply Hmax; lia|]. split; eexists; (split; [apply Hmax; lia|apply Hpad]).
Qed.
End BatchSafety.

(** ** Batch packing: the claims *)

Section BatchClaims.
Context {F : Type} `{TorchScalar F}.

Lemma batch_images_packed (tracing : bool) (images : list (tensor F)) (stride : Z) :
  images <> [] -> Forall (fun img => dim img = 3%nat) images -> 0 < stride ->
  exists t, batch_images tracing images stride = Ok t /\ packed images stride t.
Proof.
  destruct tracing.
  - apply onnx_batch_images_packed.
  - apply batch_images_eager_packed.
Qed.

(** Claim C2. For a non-empty list of 3-D images and a positive stride,
    batch_images (on either of its two paths) returns a tensor of shape
    [N, C, H, W] in which C is the largest channel count, H and W are the
    smallest multiples of the stride that are at least the largest height
    and the largest width, every element of image [i] sits at the same
    (channel, row, column) index of slot [i], and every other element is
    zero. *)
Theorem batch_images_packs (tracing : bool) (images : list (tensor F))
        (size_divisible : Z) :
  images <> [] -> Forall (fun img => dim img = 3%nat) images -> 0 < size_divisible ->
  exists t C Hh W,
    batch_images tracing images size_divisible = Ok t /\
    shape t = [length images; C; Hh; W] /\
    is_axis_max 0 images C /\
    (exists mh, is_axis_max 1 images mh /\ is_least_multiple_above size_divisible mh Hh) /\
    (exists mw, is_axis_max 2 images mw /\ is_least_multiple_above size_divisible mw W) /\
    forall i img c r col, images !! i = Some img ->
      data t [i; c; r; col] =
        if in_bounds (shape img) [c; r; col] then data img [c; r; col]
        else t_of_Z 0.
Proof.
  intros Hne Hall Hs.
  destruct (batch_images_packed tracing images size_divisible Hne Hall Hs)
    as (t & E & Hshape & Hdata).
  destruct (packed_shape_spec images size_divisible Hne Hall Hs) as (HC & HH & HW).
  exists t. do 3 eexists. split; [exact E|]. split; [exact Hshape|].
  split; [exact HC|]. split; [exact HH|]. split; [exact HW|].
  intros i img c r col Hi. apply Hdata. exact Hi.
Qed.

(** Claim C8. For a non-empty list of 3-D images and a positive stride,
    _onnx_batch_images returns a tensor with the shape of the one
    batch_images builds in place, and with the same element at every
    index of that shape. *)
Theorem onnx_batch_images_agrees (images : list (tensor F)) (size_divisible : Z) :
  images <> [] -> Forall (fun img => dim img = 3%nat) images -> 0 < size_divisible ->
  exists t t',
    batch_images false images size_divisible = Ok t /\
    _onnx_batch_images images size_divisible = Ok t' /\
    shape t' = shape t /\
    forall idx, in_bounds (shape t) idx = true -> data t' idx = data t idx.
Proof.
  intros Hne Hall Hs.
  destruct (batch_images_eager_packed images size_divisible Hne Hall Hs)
    as (t & E & Hshape & Hdata).
  destruct (onnx_batch_images_packed images size_divisible Hne Hall Hs)
    as (t' & E' & Hshape' & Hdata').
  exists t, t'. split; [exact E|]. split; [exact E'|]. split; [congruence|].
  intros idx Hidx. rewrite Hshape in Hidx.
  destruct idx as [|i rest]; [discriminate|]. cbn [in_bounds] in Hidx.
  apply andb_true_iff in Hidx as [Hi _]. apply Nat.ltb_lt in Hi.
  destruct (lookup_lt_is_Some_2 images i Hi) as [img Himg].
  rewrite (Hdata i img rest Himg), (Hdata' i img rest Himg). reflexivity.
Qed.

(** Claim C10. On an empty list batch_images fails with IndexError on
    both paths; on a non-empty list the reads of the first image
    ([images[0]]) and of the first shape ([the_list[0]]) succeed, and for
    3-D images batch_images never fails with IndexError, whatever the
    stride. *)
Theorem batch_images_needs_images :
  (forall tracing size_divisible,
      batch_images tracing (@nil (tensor F)) size_divisible = Raise IndexError) /\
  (forall (img : tensor F) rest, getitem (img :: rest) 0 = Ok img) /\
  (forall (s : list Z) rest, getitem (s :: rest) 0 = Ok s) /\
  (forall tracing (images : list (tensor F)) size_divisible,
      images <> [] -> Forall (fun img => dim img = 3%nat) images ->
      batch_images tracing images size_divisible <> Raise IndexError).
Proof.
  split; [apply batch_images_empty|].
  split; [intros; apply (getitem_lookup _ 0%nat); reflexivity|].
  split; [intros; apply (getitem_lookup _ 0%nat); reflexivity|].
  intros [|] images sd Hne Hall.
  - apply batch_images_onnx_no_IndexError; assumption.
  - apply batch_images_eager_no_IndexError; assumption.
Qed.
End BatchClaims.

(** The packing law on the two images [img_a] and [img_b] with stride 4. *)
Lemma batch_images_packs_witness :
  exists t C Hh W,
    batch_images false [img_a; img_b] 4 = Ok t /\
    shape t = [2%nat; C; Hh; W] /\
    is_axis_max 0 [img_a; img_b] C /\
    (exists mh, is_axis_max 1 [img_a; img_b] mh /\ is_least_multiple_above 4 mh Hh) /\
    (exists mw, is_axis_max 2 [img_a; img_b] mw /\ is_least_multiple_above 4 mw W) /\
    forall i img c r col, [img_a; img_b] !! i = Some img ->
      data t [i; c; r; col] =
        if in_bounds (shape img) [c; r; col] then data img [c; r; col]
        else t_of_Z 0.
Proof.
  apply (batch_images_packs false [img_a; img_b] 4);
    [discriminate | repeat constructor | lia].
Defined.

(** The packed shape of the same two images. *)
Example batch_images_example :
  (shape <$> batch_images false [img_a; img_b] 4) = Ok [2%nat; 2%nat; 4%nat; 8%nat].
Proof. vm_compute. reflexivity. Qed.

(** ** resize_boxes *)

Section BoxProofs.
Context {F : Type} `{TorchScalar F}.

Lemma resize_boxes_columns (boxes : tensor F) (n : nat) (old_h old_w new_h new_w : Z) :
  shape boxes = [n; 4%nat] ->
  exists t, resize_boxes boxes [old_h; old_w] [new_h; new_w] = Ok t /\
    shape t = [n; 4%nat] /\
    forall i,
      data t [i; 0%nat] = t_mul (data boxes [i; 0%nat]) (t_div (t_of_Z new_w) (t_of_Z old_w)) /\
      data t [i; 1%nat] = t_mul (data boxes [i; 1%nat]) (t_div (t_of_Z new_h) (t_of_Z old_h)) /\
      data t [i; 2%nat] = t_mul (data boxes [i; 2%nat]) (t_div (t_of_Z new_w) (t_of_Z old_w)) /\
      data t [i; 3%nat] = t_mul (data boxes [i; 3%nat]) (t_div (t_of_Z new_h) (t_of_Z old_h)).
Proof.
  intros Hs. unfold resize_boxes, unbind1. rewrite Hs.
  cbn [zip_with seq fmap list_fmap mbind result_bind].
  eexists. split; [reflexivity|]. split; [reflexivity|].
  intros i. repeat split.
Qed.
End BoxProofs.

(** Claim C3. On an [N, 4] tensor of boxes, resize_boxes multiplies columns
    0 and 2 (xmin, xmax) by the width ratio new_w / old_w and columns 1 and
    3 (ymin, ymax) by the height ratio new_h / old_h, keeping the column
    order, for every scalar arithmetic.  In particular the boxes
    [[10, 10, 50, 50]] of a 600 x 800 image resized to 640 x 853 become
    [[10 * 853 / 800, 10 * 640 / 600, 50 * 853 / 800, 50 * 640 / 600]]. *)
Theorem resize_boxes_scales_per_axis :
  (forall (F : Type) (S : TorchScalar F) (boxes : tensor F) (n : nat)
          (old_h old_w new_h new_w : Z),
      shape boxes = [n; 4%nat] ->
      exists t, resize_boxes boxes [old_h; old_w] [new_h; new_w] = Ok t /\
        shape t = [n; 4%nat] /\
        forall i,
          data t [i; 0%nat] = t_mul (data boxes [i; 0%nat]) (t_div (t_of_Z new_w) (t_of_Z old_w)) /\
          data t [i; 1%nat] = t_mul (data boxes [i; 1%nat]) (t_div (t_of_Z new_h) (t_of_Z old_h)) /\
          data t [i; 2%nat] = t_mul (data boxes [i; 2%nat]) (t_div (t_of_Z new_w) (t_of_Z old_w)) /\
          data t [i; 3%nat] = t_mul (data boxes [i; 3%nat]) (t_div (t_of_Z new_h) (t_of_Z old_h))) /\
  (exists t, resize_boxes example_boxes [600; 800] [640; 853] = Ok t /\
     shape t = [1%nat; 4%nat] /\
     (data t [0%nat; 0%nat] == 10 * 853 / 800)%Q /\
     (data t [0%nat; 1%nat] == 10 * 640 / 600)%Q /\
     (data t [0%nat; 2%nat] == 50 * 853 / 800)%Q /\
     (data t [0%nat; 3%nat] == 50 * 640 / 600)%Q).
Proof.
  split.
  - intros F S boxes n old_h old_w new_h new_w. apply resize_boxes_columns.
  - eexists. split; [reflexivity|]. split; [reflexivity|].
    repeat split; vm_compute; reflexivity.
Qed.

(** The scaling law on the boxes of the example. *)
Lemma resize_boxes_scales_per_axis_witness :
  exists t, resize_boxes example_boxes [600; 800] [640; 853] = Ok t /\
    shape t = [1%nat; 4%nat] /\
    forall i,
      data t [i; 0%nat] = t_mul (data example_boxes [i; 0%nat]) (t_div (t_of_Z 853) (t_of_Z 800)) /\
      data t [i; 1%nat] = t_mul (data example_boxes [i; 1%nat]) (t_div (t_of_Z 640) (t_of_Z 600)) /\
      data t [i; 2%nat] = t_mul (data example_boxes [i; 2%nat]) (t_div (t_of_Z 853) (t_of_Z 800)) /\
      data t [i; 3%nat] = t_mul (data example_boxes [i; 3%nat]) (t_div (t_of_Z 640) (t_of_Z 600)).
Proof.
  apply (proj1 resize_boxes_scales_per_axis Q Q_scalar example_boxes 1%nat 600 800 640 853).
  reflexivity.
Defined.

Lemma Q_round_trip (x : Q) (a b : Z) :
  a <> 0 -> b <> 0 ->
  (x * (inject_Z b / inject_Z a) * (inject_Z a / inject_Z b) == x)%Q.
Proof.
  intros Ha Hb.
  assert (~ inject_Z a == 0)%Q by (unfold Qeq; cbn; lia).
  assert (~ inject_Z b == 0)%Q by (unfold Qeq; cbn; lia).
  field. split; assumption.
Qed.

(** Claim C4. Over the rationals, resizing the boxes from the original size
    to a new size and back from the new size to the original one gives the
    original boxes again, provided none of the four sizes is zero. *)
Theorem resize_boxes_round_trip (boxes : tensor Q) (n : nat)
        (old_h old_w new_h new_w : Z) :
  shape boxes = [n; 4%nat] ->
  old_h <> 0 -> old_w <> 0 -> new_h <> 0 -> new_w <> 0 ->
  exists resized restored,
    resize_boxes boxes [old_h; old_w] [new_h; new_w] = Ok resized /\
    resize_boxes resized [new_h; new_w] [old_h; old_w] = Ok restored /\
    shape restored = shape boxes /\
    forall idx, in_bounds (shape boxes) idx = true ->
      (data restored idx == data boxes idx)%Q.
Proof.
  intros Hs Hoh How Hnh Hnw.
  destruct (resize_boxes_columns boxes n old_h old_w new_h new_w Hs)
    as (t1 & E1 & Hs1 & Hd1).
  destruct (resize_boxes_columns t1 n new_h new_w old_h old_w Hs1)
    as (t2 & E2 & Hs2 & Hd2).
  exists t1, t2. split; [exact E1|]. split; [exact E2|]. split; [congruence|].
  intros idx Hidx. rewrite Hs in Hidx.
  destruct idx as [|i [|k [|? ?]]]; cbn [in_bounds] in Hidx;
    try (rewrite ?andb_false_r in Hidx; discriminate).
  apply andb_true_iff in Hidx as [_ Hk]. rewrite andb_true_r in Hk.
  apply Nat.ltb_lt in Hk.
  destruct (Hd1 i) as (A0 & A1 & A2 & A3). destruct (Hd2 i) as (B0 & B1 & B2 & B3).
  destruct k as [|[|[|[|k]]]]; [| | | |lia].
  - rewrite B0, A0. cbn [t_mul t_div t_of_Z Q_scalar]. apply Q_round_trip; assumption.
  - rewrite B1, A1. cbn [t_mul t_div t_of_Z Q_scalar]. apply Q_round_trip; assumption.
  - rewrite B2, A2. cbn [t_mul t_div t_of_Z Q_scalar]. apply Q_round_trip; assumption.
  - rewrite B3, A3. cbn [t_mul t_div t_of_Z Q_scalar]. apply Q_round_trip; assumption.
Qed.

(** The round trip between 600 x 800 and 640 x 853 on the boxes of the
    example. *)
Lemma resize_boxes_round_trip_witness :
  exists resized restored,
    resize_boxes example_boxes [600; 800] [640; 853] = Ok resized /\
    resize_boxes resized [640; 853] [600; 800] = Ok restored /\
    shape restored = shape example_boxes /\
    forall idx, in_bounds (shape example_boxes) idx = true ->
      (data restored idx == data example_boxes idx)%Q.
Proof.
  apply (resize_boxes_round_trip example_boxes 1 600 800 640 853);
    [reflexivity | lia | lia | lia | lia].
Defined.

(** ** postprocess *)

Section PostprocessProofs.
Context {F : Type} `{TorchScalar F}.
Implicit Types σ : gmap positive (gmap string (tensor F)).

Lemma dict_get_entry σ l key :
  dict_get l key σ = match entry σ l key with
                     | Some v => (Ok v, σ)
                     | None => (Raise KeyError, σ)
                     end.
Proof.
  unfold dict_get, entry. destruct (σ !! l) as [d|]; cbn.
  - reflexivity.
  - rewrite lookup_empty. reflexivity.
Qed.

Lemma entry_dict_set_other σ l l' key key' v :
  key' <> key ->
  entry (<[l := <[key := v]> (default ∅ (σ !! l))]> σ) l' key' = entry σ l' key'.
Proof.
  intros Hk. unfold entry. destruct (decide (l = l')) as [->|Hl].
  - rewrite lookup_insert_eq. cbn. rewrite lookup_insert_ne by congruence.
    destruct (σ !! l'); cbn; [reflexivity|apply lookup_empty].
  - rewrite lookup_insert_ne by exact Hl. reflexivity.
Qed.

Lemma entry_dict_set_other_loc σ l l' key key' v :
  l <> l' ->
  entry (<[l := <[key := v]> (default ∅ (σ !! l))]> σ) l' key' = entry σ l' key'.
Proof.
  intros Hl. unfold entry. rewrite lookup_insert_ne by exact Hl. reflexivity.
Qed.

(** One iteration of the loop of postprocess. *)
Lemma postprocess_loop_step pred result im_s image_shapes o_im_s sizes σ :
  postprocess_loop (pred :: result) (im_s :: image_shapes) (o_im_s :: sizes) σ =
  match entry σ pred "boxes" with
  | None => (Raise KeyError, σ)
  | Some boxes =>
      match resize_boxes boxes [im_s.1; im_s.2] [o_im_s.1; o_im_s.2] with
      | Raise e => (Raise e, σ)
      | Ok boxes' =>
          postprocess_loop result image_shapes sizes
            (<[pred := <["boxes" := boxes']> (default ∅ (σ !! pred))]> σ)
      end
  end.
Proof.
  cbn [postprocess_loop]. unfold mbind, M_bind, bind. rewrite dict_get_entry.
  destruct (entry σ pred "boxes") as [boxes|]; [|reflexivity].
  unfold lift. destruct (resize_boxes _ _ _); reflexivity.
Qed.

Lemma postprocess_loop_stop result image_shapes sizes σ :
  result = [] \/ image_shapes = [] \/ sizes = [] ->
  postprocess_loop result image_shapes sizes σ = (Ok tt, σ).
Proof.
  intros [->|[->| ->]]; [reflexivity| |].
  - destruct result; reflexivity.
  - destruct result; [reflexivity|]. destruct image_shapes; reflexivity.
Qed.

Lemma postprocess_loop_frame result image_shapes sizes σ r σ' :
  postprocess_loop result image_shapes sizes σ = (r, σ') ->
  (forall l key, key <> "boxes" -> entry σ' l key = entry σ l key) /\
  (forall l, l ∉ result -> σ' !! l = σ !! l) /\
  (forall l, is_Some (σ' !! l) <-> is_Some (σ !! l)).
Proof.
  revert image_shapes sizes σ.
  induction result as [|pred result IH]; intros image_shapes sizes σ.
  { rewrite postprocess_loop_stop by auto. intros [= _ <-]. auto. }
  destruct image_shapes as [|im_s image_shapes];
    [rewrite postprocess_loop_stop by auto; intros [= _ <-]; auto|].
  destruct sizes as [|o_im_s sizes];
    [rewrite postprocess_loop_stop by auto; intros [= _ <-]; auto|].
  rewrite postprocess_loop_step.
  destruct (entry σ pred "boxes") as [boxes|] eqn:Eb; [|intros [= _ <-]; auto].
  destruct (resize_boxes _ _ _) as [boxes'|e]; [|intros [= _ <-]; auto].
  intros Hloop. apply IH in Hloop as (Hkeys & Hlocs & Hdom).
  split; [|split].
  - intros l key Hk. rewrite Hkeys by exact Hk.
    apply entry_dict_set_other. exact Hk.
  - intros l Hl. apply not_elem_of_cons in Hl as [Hne Hl].
    rewrite Hlocs by exact Hl. apply lookup_insert_ne. congruence.
  - intros l. rewrite Hdom. destruct (decide (pred = l)) as [->|Hne].
    + rewrite lookup_insert_eq. unfold entry in Eb.
      destruct (σ !! l); [|discriminate]. split; eauto.
    + rewrite lookup_insert_ne by exact Hne. reflexivity.
Qed.
End PostprocessProofs.

Section PostprocessSpec.
Context {F : Type} `{TorchScalar F}.
Implicit Types σ : gmap positive (gmap string (tensor F)).

Lemma postprocess_loop_rescales result image_shapes sizes σ :
  NoDup result -> (forall pred, pred ∈ result -> has_boxes σ pred) ->
  exists σ', postprocess_loop result image_shapes sizes σ = (Ok tt, σ') /\
    forall i pred, result !! i = Some pred ->
      rescaled_at σ σ' pred (image_shapes !! i) (sizes !! i).
Proof.
  intros Hnd. revert image_shapes sizes σ.
  induction Hnd as [|pred result Hnotin Hnd IH]; intros image_shapes sizes σ Hboxes.
  { exists σ. split; [reflexivity|]. intros i pred Hi. destruct i; discriminate. }
  destruct image_shapes as [|im_s image_shapes].
  { exists σ. split; [reflexivity|]. intros i p Hi. reflexivity. }
  destruct sizes as [|o_im_s sizes].
  { exists σ. split; [reflexivity|]. intros i p Hi.
    unfold rescaled_at. rewrite (lookup_nil (A:=Z * Z)).
    destruct ((im_s :: image_shapes) !! i); reflexivity. }
  rewrite postprocess_loop_step.
  destruct (Hboxes pred ltac:(left)) as (boxes & n & Eb & Hshape).
  rewrite Eb.
  destruct (resize_boxes_columns boxes n im_s.1 im_s.2 o_im_s.1 o_im_s.2 Hshape)
    as (boxes' & Er & _ & _).
  rewrite Er.
  set (σ1 := <[pred := <["boxes" := boxes']> (default ∅ (σ !! pred))]> σ).
  assert (Hother : forall p, p ∈ result -> σ1 !! p = σ !! p).
  { intros p Hp. apply lookup_insert_ne. intros ->. contradiction. }
  destruct (IH image_shapes sizes σ1) as (σ' & Eloop & Hres).
  { intros p Hp. destruct (Hboxes p ltac:(right; exact Hp)) as (b & m & Ep & Hm).
    exists b, m. split; [|exact Hm]. unfold entry. rewrite Hother by exact Hp. exact Ep. }
  exists σ'. split; [exact Eloop|].
  intros [|i] p Hi; cbn [lookup list_lookup] in Hi |- *.
  - injection Hi as <-. unfold rescaled_at.
    unfold entry in Eb. destruct (σ !! pred) as [d|] eqn:Ed; [|discriminate].
    cbn in Eb. exists d, boxes, boxes'. split; [reflexivity|]. split; [exact Eb|].
    split; [exact Er|].
    destruct (postprocess_loop_frame _ _ _ _ _ _ Eloop) as (_ & Hlocs & _).
    rewrite (Hlocs pred Hnotin). subst σ1. rewrite lookup_insert_eq. reflexivity.
  - specialize (Hres i p Hi). unfold rescaled_at in *.
    assert (Hp : p ∈ result) by (eapply list_elem_of_lookup_2; exact Hi).
    rewrite (Hother p Hp) in Hres. exact Hres.
Qed.
End PostprocessSpec.

Section PostprocessClaims.
Context {F : Type} `{TorchScalar F}.
Implicit Types σ : gmap positive (gmap string (tensor F)).

(** Claim C5. In training mode postprocess returns the list of
    predictions it was given and leaves every dictionary as it is.  In
    inference mode, for predictions that are distinct dictionaries holding
    an [N, 4] tensor of boxes, it returns the same list and replaces the
    boxes of prediction [i] by resize_boxes of them from [image_shapes[i]]
    to [original_image_sizes[i]]. *)
Theorem postprocess_identity_or_rescale (self : GeneralizedRCNNTransform)
        (result : list positive) (image_shapes original_image_sizes : list (Z * Z)) σ :
  (training self = true ->
     postprocess self result image_shapes original_image_sizes σ = (Ok result, σ)) /\
  (training self = false ->
   NoDup result -> (forall pred, pred ∈ result -> has_boxes σ pred) ->
   exists σ',
     postprocess self result image_shapes original_image_sizes σ = (Ok result, σ') /\
     forall i pred im_s o_im_s,
       result !! i = Some pred -> image_shapes !! i = Some im_s ->
       original_image_sizes !! i = Some o_im_s ->
       exists d boxes boxes',
         σ !! pred = Some d /\ d !! "boxes" = Some boxes /\
         resize_boxes boxes [im_s.1; im_s.2] [o_im_s.1; o_im_s.2] = Ok boxes' /\
         σ' !! pred = Some (<["boxes" := boxes']> d)).
Proof.
  unfold postprocess. split; intros Htr; rewrite Htr; [reflexivity|].
  intros Hnd Hboxes.
  destruct (postprocess_loop_rescales result image_shapes original_image_sizes σ
              Hnd Hboxes) as (σ' & Eloop & Hres).
  exists σ'. unfold mbind, M_bind, bind. rewrite Eloop. split; [reflexivity|].
  intros i pred im_s o_im_s Hi Hs Ho. specialize (Hres i pred Hi).
  rewrite Hs, Ho in Hres. exact Hres.
Qed.

(** Claim C9. In inference mode postprocess changes no entry other than
    "boxes" in any dictionary, changes no dictionary outside the list of
    predictions, and the dictionary of prediction [i] after the call
    depends on the two size lists only through their entries at index
    [i]. *)
Theorem postprocess_touches_only_boxes (self : GeneralizedRCNNTransform)
        (result : list positive) (image_shapes original_image_sizes : list (Z * Z))
        σ r σ' :
  training self = false ->
  postprocess self result image_shapes original_image_sizes σ = (r, σ') ->
  (forall l key, key <> "boxes" -> entry σ' l key = entry σ l key) /\
  (forall l, l ∉ result -> σ' !! l = σ !! l) /\
  (forall image_shapes2 original_image_sizes2 r2 σ2' i pred,
      NoDup result -> (forall pred, pred ∈ result -> has_boxes σ pred) ->
      result !! i = Some pred ->
      image_shapes2 !! i = image_shapes !! i ->
      original_image_sizes2 !! i = original_image_sizes !! i ->
      postprocess self result image_shapes2 original_image_sizes2 σ = (r2, σ2') ->
      σ2' !! pred = σ' !! pred).
Proof.
  intros Htr. unfold postprocess. rewrite Htr. unfold mbind, M_bind, bind.
  destruct (postprocess_loop result image_shapes original_image_sizes σ)
    as [r1 σ1] eqn:Eloop.
  intros Hpost. assert (σ1 = σ') as -> by (destruct r1; unfold ret in Hpost; congruence). clear Hpost.
  destruct (postprocess_loop_frame _ _ _ _ _ _ Eloop) as (Hkeys & Hlocs & _).
  split; [exact Hkeys|]. split; [exact Hlocs|].
  intros shapes2 sizes2 r2 σ2' i pred Hnd Hboxes Hi Hs Ho.
  destruct (postprocess_loop_rescales result shapes2 sizes2 σ Hnd Hboxes)
    as (σ2 & Eloop2 & Hres2).
  rewrite Eloop2. intros [= _ <-].
  destruct (postprocess_loop_rescales result image_shapes original_image_sizes σ
              Hnd Hboxes) as (σ1 & Eloop1 & Hres1).
  rewrite Eloop in Eloop1. injection Eloop1 as _ <-.
  specialize (Hres1 i pred Hi). specialize (Hres2 i pred Hi).
  rewrite Hs, Ho in Hres2. unfold rescaled_at in *.
  destruct (image_shapes !! i) as [im_s|]; [|congruence].
  destruct (original_image_sizes !! i) as [o_im_s|]; [|congruence].
  destruct Hres1 as (d & b & b' & Ed & Eb & Er & ->).
  destruct Hres2 as (d2 & b2 & b2' & Ed2 & Eb2 & Er2 & ->).
  congruence.
Qed.
End PostprocessClaims.

Lemma example_predictions_have_boxes pred :
  pred ∈ [1%positive; 2%positive] -> has_boxes example_predictions pred.
Proof.
  intros Hin. exists example_boxes, 1%nat.
  apply elem_of_cons in Hin as [->|Hin]; [split; reflexivity|].
  apply elem_of_cons in Hin as [->|Hin]; [split; reflexivity|].
  inversion Hin.
Qed.

Lemma example_predictions_NoDup : NoDup [1%positive; 2%positive].
Proof.
  apply NoDup_cons. split; [|apply NoDup_singleton].
  intros Hin. apply list_elem_of_singleton in Hin. discriminate.
Qed.

(** Both modes of postprocess on the two predictions of the example. *)
Lemma postprocess_identity_or_rescale_witness :
  postprocess (example_transform true) [1%positive; 2%positive]
    [(640, 853); (640, 853)] [(600, 800); (600, 800)] example_predictions
  = (Ok [1%positive; 2%positive], example_predictions) /\
  exists σ',
    postprocess (example_transform false) [1%positive; 2%positive]
      [(640, 853); (640, 853)] [(600, 800); (600, 800)] example_predictions
    = (Ok [1%positive; 2%positive], σ') /\
    forall i pred im_s o_im_s,
      [1%positive; 2%positive] !! i = Some pred ->
      [(640, 853); (640, 853)] !! i = Some im_s ->
      [(600, 800); (600, 800)] !! i = Some o_im_s ->
      exists d boxes boxes',
        example_predictions !! pred = Some d /\ d !! "boxes" = Some boxes /\
        resize_boxes boxes [im_s.1; im_s.2] [o_im_s.1; o_im_s.2] = Ok boxes' /\
        σ' !! pred = Some (<["boxes" := boxes']> d).
Proof.
  split.
  - apply (proj1 (postprocess_identity_or_rescale (example_transform true) _ _ _ _)).
    reflexivity.
  - apply (proj2 (postprocess_identity_or_rescale (example_transform false) _ _ _ _)).
    + reflexivity.
    + exact example_predictions_NoDup.
    + exact example_predictions_have_boxes.
Defined.

(** ** resize *)

Lemma float_div_nonzero (a b : Q) : ~ (b == 0)%Q -> float_div a b = Ok (a / b)%Q.
Proof.
  intros Hb. unfold float_div. destruct (Qeq_bool b 0) eqn:E; [|reflexivity].
  apply Qeq_bool_eq in E. contradiction.
Qed.

Lemma inject_nat_nonzero (n : nat) : (0 < n)%nat -> ~ (inject_Z (Z.of_nat n) == 0)%Q.
Proof. intros Hn. unfold Qeq. cbn. lia. Qed.

Lemma float_gt_true (a b : Q) : float_gt a b = true <-> (b < a)%Q.
Proof.
  unfold float_gt. rewrite negb_true_iff, <- not_true_iff_false, Qle_bool_iff.
  split; [apply Qnot_le_lt|apply Qlt_not_le].
Qed.

Lemma float_gt_false (a b : Q) : float_gt a b = false <-> (a <= b)%Q.
Proof. unfold float_gt. rewrite negb_false_iff. apply Qle_bool_iff. Qed.

Section ResizeProofs.
Context {F : Type} `{TorchScalar F}.

Lemma resize_scale_factor_cases (self : @GeneralizedRCNNTransform F) (u : Q)
      (h w : nat) (size : Q) :
  (0 < h)%nat -> (0 < w)%nat -> resize_size self u = Ok size ->
  let im_min := inject_Z (Z.of_nat (Nat.min h w)) in
  let im_max := inject_Z (Z.of_nat (Nat.max h w)) in
  ((im_max * (size / im_min) <= inject_Z (max_size self))%Q ->
     resize_scale_factor self u h w = Ok (size / im_min)%Q) /\
  ((inject_Z (max_size self) < im_max * (size / im_min))%Q ->
     resize_scale_factor self u h w = Ok (inject_Z (max_size self) / im_max)%Q).
Proof.
  intros Hh Hw Hsize im_min im_max. subst im_min im_max.
  unfold resize_scale_factor. rewrite Hsize.
  cbn [mbind result_bind].
  rewrite (float_div_nonzero size) by (apply inject_nat_nonzero; lia).
  cbn [mbind result_bind]. split; intros Hcmp.
  - apply float_gt_false in Hcmp. rewrite Hcmp. reflexivity.
  - apply float_gt_true in Hcmp. rewrite Hcmp.
    apply float_div_nonzero. apply inject_nat_nonzero. lia.
Qed.

Lemma resize_size_inference (self : @GeneralizedRCNNTransform F) (u : Q) :
  training self = false ->
  resize_size self u = inject_Z <$> getitem (min_size self) (-1).
Proof. intros Htr. unfold resize_size. rewrite Htr. reflexivity. Qed.
End ResizeProofs.

(** *** The target edge in inference mode *)

Lemma getitem_last {A} (l : list A) :
  getitem l (-1) = match last l with
                   | Some x => Ok x
                   | None => Raise IndexError
                   end.
Proof.
  unfold getitem. change (-1 <? 0) with true. cbn iota.
  destruct l as [|a l] using rev_ind; [reflexivity|].
  rewrite last_snoc, length_app. cbn [length].
  destruct (Z.ltb_spec (Z.of_nat (length l + 1) + -1) 0); [lia|].
  destruct (Z.leb_spec (Z.of_nat (length l + 1)) (Z.of_nat (length l + 1) + -1)); [lia|].
  cbn [orb].
  replace (Z.to_nat (Z.of_nat (length l + 1) + -1)) with (length l + 0)%nat by lia.
  rewrite lookup_app_r by lia.
  replace (length l + 0 - length l)%nat with 0%nat by lia. reflexivity.
Qed.

Section ResizeSize.
Context {F : Type}.

(** In inference mode the target edge does not depend on the random
    number. *)
Lemma resize_size_inference_deterministic (self : @GeneralizedRCNNTransform F)
      (u u' : Q) :
  training self = false -> resize_size self u = resize_size self u'.
Proof. intros Htr. unfold resize_size. rewrite Htr. reflexivity. Qed.

(** In inference mode the target edge is the last configured value; it
    is the largest one when the values are configured in increasing
    order. *)
Lemma resize_size_inference_last (self : @GeneralizedRCNNTransform F) (u : Q) :
  training self = false ->
  resize_size self u = match last (min_size self) with
                       | Some s => Ok (inject_Z s)
                       | None => Raise IndexError
                       end.
Proof.
  intros Htr. unfold resize_size. rewrite Htr, getitem_last.
  destruct (last (min_size self)); reflexivity.
Qed.

Lemma resize_size_inference_largest_if_sorted (self : @GeneralizedRCNNTransform F)
      (u : Q) :
  training self = false -> min_size self <> [] ->
  StronglySorted Z.le (min_size self) ->
  exists s, resize_size self u = Ok (inject_Z s) /\ s ∈ min_size self /\
            forall x, x ∈ min_size self -> x <= s.
Proof.
  intros Htr Hne Hsorted. rewrite resize_size_inference_last by exact Htr.
  destruct (min_size self) as [|a l] using rev_ind; [congruence|]. clear IHl Hne.
  rewrite last_snoc. exists a. split; [reflexivity|].
  split; [apply elem_of_app; right; left|].
  intros x Hx. apply elem_of_app in Hx as [Hx|Hx].
  - clear -Hsorted Hx. induction l as [|y l IH]; [inversion Hx|].
    cbn in Hsorted. apply StronglySorted_inv in Hsorted as [Hs Hall].
    apply elem_of_cons in Hx as [->|Hx]; [|apply IH; assumption].
    rewrite List.Forall_forall in Hall. apply Hall. apply in_or_app. right. left.
    reflexivity.
  - apply list_elem_of_singleton in Hx as ->. lia.
Qed.
End ResizeSize.

Section ResizeShape.
Context {F : Type} `{TorchScalar F}.
Variable bilinear : tensor F -> Q -> list nat -> F.

Lemma resize_without_target (self : @GeneralizedRCNNTransform F) (u : Q)
      (image : tensor F) (c h w : nat) (s : Q) σ :
  shape image = [c; h; w] ->
  resize_scale_factor self u h w = Ok s ->
  (0 < c)%nat -> (0 < h)%nat -> (0 < w)%nat ->
  0 < Qfloor (inject_Z (Z.of_nat h) * s) -> 0 < Qfloor (inject_Z (Z.of_nat w) * s) ->
  exists image',
    resize bilinear self u image None σ = (Ok (image', None), σ) /\
    shape image' = [c; Z.to_nat (Qfloor (inject_Z (Z.of_nat h) * s));
                    Z.to_nat (Qfloor (inject_Z (Z.of_nat w) * s))].
Proof.
  intros Hs Hscale Hc Hh Hw Hoh How. unfold resize. rewrite Hs.
  cbn [last2 length Nat.sub drop]. rewrite Hscale.
  unfold mbind, M_bind, bind, lift, interpolate, unsqueeze0. cbn [shape]. rewrite Hs.
  destruct (Nat.eqb_spec c 0); [lia|]. destruct (Nat.eqb_spec h 0); [lia|].
  destruct (Nat.eqb_spec w 0); [lia|].
  destruct (Z.leb_spec (Qfloor (inject_Z (Z.of_nat h) * s)) 0); [lia|].
  destruct (Z.leb_spec (Qfloor (inject_Z (Z.of_nat w) * s)) 0); [lia|].
  cbn [orb]. unfold select0. cbn [shape Nat.ltb Nat.leb].
  eexists. split; reflexivity.
Qed.
End ResizeShape.

(** Claim C1. For an image of positive height [h] and width [w] and the
    selected minimum edge [size], resize uses the scale factor
    size / min(h, w), unless max(h, w) times that factor exceeds max_size,
    in which case it uses max_size / max(h, w).  In particular, in inference
    mode with min_size = (480, 512, 544, 576, 608, 640) and max_size = 1000
    an image of shape [3, 600, 800] gets the factor 640 / 600 and is resized
    to the shape [3, 640, 853]. *)
Theorem resize_scale_factor_spec :
  (forall (F : Type) (self : @GeneralizedRCNNTransform F) (u : Q) (h w : nat) (size : Q),
      (0 < h)%nat -> (0 < w)%nat -> resize_size self u = Ok size ->
      let im_min := inject_Z (Z.of_nat (Nat.min h w)) in
      let im_max := inject_Z (Z.of_nat (Nat.max h w)) in
      ((im_max * (size / im_min) <= inject_Z (max_size self))%Q ->
         resize_scale_factor self u h w = Ok (size / im_min)%Q) /\
      ((inject_Z (max_size self) < im_max * (size / im_min))%Q ->
         resize_scale_factor self u h w = Ok (inject_Z (max_size self) / im_max)%Q)) /\
  (forall u, resize_scale_factor (example_transform false) u 600 800
             = Ok (inject_Z 640 / inject_Z 600)%Q) /\
  (forall bilinear u (image : tensor Q) σ,
      shape image = [3%nat; 600%nat; 800%nat] ->
      exists image',
        resize bilinear (example_transform false) u image None σ = (Ok (image', None), σ) /\
        shape image' = [3%nat; 640%nat; 853%nat]).
Proof.
  split; [intros F self u h w size; apply resize_scale_factor_cases|].
  split; [intros u; vm_compute; reflexivity|].
  intros bilinear u image σ Hs.
  destruct (resize_without_target bilinear (example_transform false) u image
              3 600 800 (inject_Z 640 / inject_Z 600)%Q σ Hs)
    as (image' & E & Hs'); try (vm_compute; reflexivity); try lia.
  exists image'. split; [exact E|]. rewrite Hs'. vm_compute. reflexivity.
Qed.

(** The factor of an image of 600 x 800 in inference mode. *)
Lemma resize_scale_factor_spec_witness :
  resize_scale_factor (example_transform false) 0 600 800
  = Ok (inject_Z 640 / inject_Z (Z.of_nat (Nat.min 600 800)))%Q.
Proof.
  apply (proj1 resize_scale_factor_spec Q (example_transform false) 0%Q
               600%nat 800%nat (inject_Z 640)).
  - lia.
  - lia.
  - reflexivity.
  - vm_compute. discriminate.
Defined.

(** Claim C6, evaluated on the code: with min_size = (640, 480) resize in
    inference mode takes 480, the last configured value, as the target
    minimum edge of a 600 x 800 image, although 640 is configured and is
    larger. *)
Theorem resize_inference_takes_last_min_size (u : Q) :
  resize_size unsorted_transform u = Ok (inject_Z 480) /\
  resize_scale_factor unsorted_transform u 600 800 = Ok (inject_Z 480 / inject_Z 600)%Q /\
  640 ∈ min_size unsorted_transform /\ 480 < 640.
Proof.
  split; [reflexivity|]. split; [vm_compute; reflexivity|]. split; [left|lia].
Qed.

(** ** forward: failures of the operations *)

Lemma implicit_Ok {A} (a : A) : implicit_failure (Ok a).
Proof. intros e. discriminate. Qed.

Lemma implicit_Raise {A} (e : exn) :
  is_explicit_check e = false -> implicit_failure (@Raise A e).
Proof. intros He e' [= <-]. exact He. Qed.

Lemma implicit_bind {A B} (m : result A) (k : A -> result B) :
  implicit_failure m -> (forall a, m = Ok a -> implicit_failure (k a)) ->
  implicit_failure (m ≫= k).
Proof.
  intros Hm Hk e. destruct m as [a|e']; cbn [mbind result_bind].
  - apply Hk. reflexivity.
  - intros [= <-]. apply Hm. reflexivity.
Qed.

Lemma implicit_fmap {A B} (f : A -> B) (m : result A) :
  implicit_failure m -> implicit_failure (f <$> m).
Proof.
  intros Hm e. destruct m as [a|e']; cbn; [discriminate|].
  intros [= <-]. apply Hm. reflexivity.
Qed.

Lemma getitem_implicit {A} (l : list A) (i : Z) : implicit_failure (getitem l i).
Proof.
  unfold getitem. destruct (_ || _); [apply implicit_Raise; reflexivity|].
  destruct (_ !! _); [apply implicit_Ok|apply implicit_Raise; reflexivity].
Qed.

Lemma broadcast_shapes_implicit (a b : list nat) : implicit_failure (broadcast_shapes a b).
Proof. intros e He. apply broadcast_shapes_error in He as ->. reflexivity. Qed.

Lemma float_div_implicit (a b : Q) : implicit_failure (float_div a b).
Proof.
  unfold float_div. destruct (Qeq_bool b 0);
    [apply implicit_Raise; reflexivity|apply implicit_Ok].
Qed.

Create HintDb implicit.
#[local] Hint Resolve implicit_Ok implicit_bind implicit_fmap getitem_implicit
  broadcast_shapes_implicit float_div_implicit : implicit.
#[local] Hint Extern 1 (implicit_failure (Raise _)) =>
  apply implicit_Raise; reflexivity : implicit.

Section ForwardProofs.
Context {F : Type} `{TorchScalar F}.
Variable bilinear : tensor F -> Q -> list nat -> F.
Implicit Types σ : gmap positive (gmap string (tensor F)).

Lemma broadcast_op_implicit op (a b : tensor F) : implicit_failure (broadcast_op op a b).
Proof. unfold broadcast_op. auto with implicit. Qed.

Lemma normalize_implicit (self : @GeneralizedRCNNTransform F) image :
  implicit_failure (normalize self image).
Proof.
  unfold normalize. apply implicit_bind; intros; apply broadcast_op_implicit.
Qed.

Lemma broadcast_op_dim op (a b t : tensor F) :
  broadcast_op op a b = Ok t -> dim a = 3%nat -> dim b = 3%nat -> dim t = 3%nat.
Proof.
  unfold broadcast_op, broadcast_shapes, dim.
  destruct (shape a) as [|a0 [|a1 [|a2 [|? ?]]]]; try discriminate.
  destruct (shape b) as [|b0 [|b1 [|b2 [|? ?]]]]; try discriminate.
  intros E _ _. cbn in E.
  repeat (destruct (_ =? _)%nat in E; cbn in E); try discriminate;
    injection E as <-; reflexivity.
Qed.

Lemma normalize_dim (self : @GeneralizedRCNNTransform F) image t :
  normalize self image = Ok t -> dim image = 3%nat -> dim t = 3%nat.
Proof.
  unfold normalize. intros E Hd.
  destruct (broadcast_op t_sub image _) as [c|] eqn:Ec; [|discriminate].
  cbn [mbind result_bind] in E.
  eapply broadcast_op_dim; [exact E| |reflexivity].
  eapply broadcast_op_dim; [exact Ec|exact Hd|reflexivity].
Qed.

Lemma resize_scale_factor_implicit (self : @GeneralizedRCNNTransform F) u h w :
  implicit_failure (resize_scale_factor self u h w).
Proof.
  unfold resize_scale_factor, resize_size, torch_choice.
  apply implicit_bind; [destruct (training self); auto with implicit|].
  intros size _. apply implicit_bind; [auto with implicit|].
  intros s _. destruct (float_gt _ _); auto with implicit.
Qed.

Lemma interpolate_implicit (input : tensor F) s :
  implicit_failure (interpolate bilinear input s).
Proof.
  unfold interpolate.
  destruct (shape input) as [|n [|c [|h [|w [|? ?]]]]]; auto with implicit.
  destruct (_ || _); auto with implicit.
Qed.

Lemma select0_implicit (t : tensor F) i : implicit_failure (select0 t i).
Proof.
  unfold select0. destruct (shape t); auto with implicit.
  destruct (_ <? _)%nat; auto with implicit.
Qed.

Lemma resize_boxes_implicit (boxes : tensor F) a b :
  implicit_failure (resize_boxes boxes a b).
Proof.
  unfold resize_boxes, unbind1.
  destruct (zip_with _ _ _) as [|? [|? [|? ?]]]; auto with implicit.
  apply implicit_bind.
  - destruct (shape boxes) as [|? [|? ?]]; auto with implicit.
  - intros cols _. destruct cols as [|? [|? [|? [|? [|? ?]]]]]; auto with implicit.
Qed.

Lemma interpolate_select0_dim (image t4 t3 : tensor F) s :
  interpolate bilinear (unsqueeze0 image) s = Ok t4 -> select0 t4 0 = Ok t3 ->
  dim t3 = 3%nat.
Proof.
  unfold interpolate, unsqueeze0, select0, dim. cbn [shape].
  destruct (shape image) as [|c [|h [|w [|? ?]]]]; try discriminate.
  destruct (_ || _); [discriminate|]. intros [= <-]. cbn [shape].
  intros [= <-]. reflexivity.
Qed.

(** resize either fails through an operation or returns a 3-D image and
    the target it was given. *)
Lemma resize_outcome (self : @GeneralizedRCNNTransform F) u image target σ :
  match resize bilinear self u image target σ with
  | (Ok (image', target'), _) => dim image' = 3%nat /\ target' = target
  | (Raise e, _) => is_explicit_check e = false
  end.
Proof.
  unfold resize.
  destruct (last2 (shape image)) as [|h [|w [|? ?]]]; try reflexivity.
  unfold mbind, M_bind, bind, lift.
  destruct (resize_scale_factor self u h w) as [s|e] eqn:Es;
    [|eapply resize_scale_factor_implicit; exact Es].
  destruct (interpolate bilinear (unsqueeze0 image) s) as [t4|e] eqn:Ei;
    [|eapply interpolate_implicit; exact Ei].
  destruct (select0 t4 0) as [t3|e] eqn:Esel;
    [|eapply select0_implicit; exact Esel].
  pose proof (interpolate_select0_dim _ _ _ _ Ei Esel) as Hd.
  destruct target as [t|]; [|split; [exact Hd|reflexivity]].
  rewrite dict_get_entry.
  destruct (entry σ t "boxes") as [bbox|]; [|reflexivity].
  destruct (resize_boxes bbox _ _) as [bbox'|e] eqn:Er;
    [|eapply resize_boxes_implicit; exact Er].
  cbn. split; [exact Hd|reflexivity].
Qed.
End ForwardProofs.

(** ** forward: the loop *)

Lemma getitem_nat_Ok {A} (l : list A) (i : nat) :
  (i < length l)%nat -> exists a, getitem l (Z.of_nat i) = Ok a.
Proof.
  intros Hi. destruct (lookup_lt_is_Some_2 l i Hi) as [a Ha].
  exists a. apply getitem_lookup. exact Ha.
Qed.

Lemma getitem_nat_Raise {A} (l : list A) (i : nat) :
  (length l <= i)%nat -> getitem l (Z.of_nat i) = Raise IndexError.
Proof.
  intros Hi. unfold getitem.
  destruct (Z.ltb_spec (Z.of_nat i) 0); [lia|].
  destruct (Z.ltb_spec (Z.of_nat i) 0); [lia|].
  destruct (Z.leb_spec (Z.of_nat (length l)) (Z.of_nat i)); [|lia]. reflexivity.
Qed.

Section ForwardLoop.
Context {F : Type} `{TorchScalar F}.
Variable bilinear : tensor F -> Q -> list nat -> F.
Implicit Types σ : gmap positive (gmap string (tensor F)).
Implicit Types targets : option (list (option positive)).

(** The three outcomes of one iteration. *)
Lemma forward_image_outcome (self : @GeneralizedRCNNTransform F) u i image targets σ :
  match forward_image bilinear self u i image targets σ with
  | (Ok (image', targets'), _) =>
      dim image = 3%nat /\ dim image' = 3%nat /\ target_available targets i /\
      (length <$> targets') = (length <$> targets)
  | (Raise e, σ') =>
      if is_explicit_check e
      then e = ValueError (ExpectedImages3d (shape image)) /\ dim image <> 3%nat /\
           target_available targets i /\ σ' = σ
      else dim image = 3%nat \/ ~ target_available targets i
  end.
Proof.
  unfold forward_image, mbind, M_bind, bind.
  assert (Hget : (exists t, target_available targets i /\
                    match targets with
                    | Some ts => getitem ts (Z.of_nat i) = Ok t
                    | None => t = None
                    end) \/
                 (~ target_available targets i /\
                    exists ts, targets = Some ts /\
                               getitem ts (Z.of_nat i) = Raise IndexError)).
  { destruct targets as [ts|]; [|left; exists None; split; [exact I|reflexivity]].
    cbn [target_available].
    destruct (le_lt_dec (length ts) i) as [Hle|Hlt].
    - right. split; [lia|]. exists ts. split; [reflexivity|].
      apply getitem_nat_Raise. exact Hle.
    - left. destruct (getitem_nat_Ok ts i Hlt) as [t Ht]. eauto. }
  destruct Hget as [(t & Hav & Ht)|(Hna & ts & -> & Ht)].
  2:{ unfold lift. rewrite Ht. cbn. right. exact Hna. }
  assert (Eget : match targets with
                 | Some ts => lift (getitem ts (Z.of_nat i))
                 | None => ret None
                 end σ = (Ok t, σ)).
  { destruct targets as [ts|]; [unfold lift; rewrite Ht|subst t]; reflexivity. }
  rewrite Eget. clear Eget.
  destruct (Nat.eqb_spec (dim image) 3) as [Hd|Hd]; cbn [negb].
  2:{ unfold raise. cbn. auto. }
  unfold lift.
  destruct (normalize self image) as [image1|e] eqn:En.
  2:{ rewrite (normalize_implicit self image e En). left. exact Hd. }
  pose proof (normalize_dim self image image1 En Hd) as Hd1.
  pose proof (resize_outcome bilinear self u image1 t σ) as Hres.
  destruct (resize bilinear self u image1 t σ) as [[[image2 t2]|e] σ2].
  - destruct Hres as [Hd2 ->]. cbn.
    split; [exact Hd|]. split; [exact Hd2|]. split; [exact Hav|].
    destruct targets as [ts|]; [|reflexivity]. destruct t; [|reflexivity].
    cbn. unfold setitem. rewrite length_insert. reflexivity.
  - rewrite Hres. left. exact Hd.
Qed.
End ForwardLoop.

Lemma target_available_length {A} (t1 t2 : option (list A)) (i : nat) :
  (length <$> t1) = (length <$> t2) -> target_available t1 i -> target_available t2 i.
Proof.
  destruct t1, t2; cbn; try discriminate; [|auto]. intros [= ->]. auto.
Qed.

Section ForwardSpec.
Context {F : Type} `{TorchScalar F}.
Variable bilinear : tensor F -> Q -> list nat -> F.
Variable self : @GeneralizedRCNNTransform F.
Variable u : nat -> Q.
Implicit Types σ : gmap positive (gmap string (tensor F)).
Implicit Types targets : option (list (option positive)).

Lemma forward_loop_cons i0 image rest targets σ :
  forward_loop bilinear self u i0 (image :: rest) targets σ =
  match forward_image bilinear self (u i0) i0 image targets σ with
  | (Ok (image', targets'), σ1) =>
      match forward_loop bilinear self u (S i0) rest targets' σ1 with
      | (Ok (rest', targets''), σ2) => (Ok (image' :: rest', targets''), σ2)
      | (Raise e, σ2) => (Raise e, σ2)
      end
  | (Raise e, σ1) => (Raise e, σ1)
  end.
Proof.
  cbn [forward_loop]. unfold mbind, M_bind, bind.
  destruct (forward_image _ _ _ _ _ _ _) as [[[image' targets']|e] σ1]; [|reflexivity].
  destruct (forward_loop _ _ _ _ _ _ _) as [[[rest' targets'']|e] σ2]; reflexivity.
Qed.

Lemma forward_loop_outcome images i0 targets σ :
  match forward_loop bilinear self u i0 images targets σ with
  | (Ok (images', targets'), _) =>
      Forall (fun img => dim img = 3%nat) images' /\
      length images' = length images /\
      (length <$> targets') = (length <$> targets)
  | (Raise e, σ') =>
      is_explicit_check e = true -> stopped_at bilinear self u i0 images targets σ e σ'
  end.
Proof.
  revert i0 targets σ. induction images as [|image rest IH]; intros i0 targets σ.
  { cbn. auto. }
  rewrite forward_loop_cons.
  pose proof (forward_image_outcome bilinear self (u i0) i0 image targets σ) as Himg.
  destruct (forward_image _ _ _ _ _ _ _) as [[[image' targets1]|e] σ1] eqn:Eimg.
  - destruct Himg as (Hd & Hd' & Hav & Hlen).
    specialize (IH (S i0) targets1 σ1).
    destruct (forward_loop _ _ _ _ _ _ _) as [[[rest' targets2]|e] σ2] eqn:Eloop.
    + destruct IH as (Hall & Hlen2 & Hlen3).
      split; [constructor; assumption|]. split; [cbn; lia|congruence].
    + intros He. destruct (IH He) as (k & img & done & tg & Hk & Hdk & -> & Eprefix & Havk).
      exists (S k), img, (image' :: done), tg.
      split; [exact Hk|]. split; [exact Hdk|]. split; [reflexivity|].
      split.
      * cbn [take]. rewrite forward_loop_cons, Eimg, Eprefix. reflexivity.
      * replace (i0 + S k)%nat with (S i0 + k)%nat by lia.
        eapply target_available_length; [exact Hlen|exact Havk].
  - intros He. rewrite He in Himg. destruct Himg as (-> & Hd & Hav & ->).
    exists 0%nat, image, [], targets.
    split; [reflexivity|]. split; [exact Hd|]. split; [reflexivity|].
    split; [reflexivity|]. rewrite Nat.add_0_r. exact Hav.
Qed.

Lemma forward_loop_stops images i0 targets σ e σ' :
  stopped_at bilinear self u i0 images targets σ e σ' ->
  forward_loop bilinear self u i0 images targets σ = (Raise e, σ').
Proof.
  intros (k & img & done & tg & Hk & Hdk & -> & Eprefix & Havk).
  revert i0 targets σ images done Hk Eprefix Havk.
  induction k as [|k IH]; intros i0 targets σ images done Hk Eprefix Havk.
  - destruct images as [|image rest]; [discriminate|]. injection Hk as ->.
    cbn in Eprefix. injection Eprefix as _ _ <-.
    rewrite Nat.add_0_r in Havk. rewrite forward_loop_cons.
    pose proof (forward_image_outcome bilinear self (u i0) i0 img targets σ) as Himg.
    destruct (forward_image _ _ _ _ _ _ _) as [[[image' targets1]|e] σ1].
    + destruct Himg as (Hd & _). contradiction.
    + destruct (is_explicit_check e).
      * destruct Himg as (-> & _ & _ & ->). reflexivity.
      * destruct Himg as [Hd|Hna]; contradiction.
  - destruct images as [|image rest]; [discriminate|]. cbn in Hk.
    cbn [take] in Eprefix. rewrite forward_loop_cons in Eprefix |- *.
    pose proof (forward_image_outcome bilinear self (u i0) i0 image targets σ) as Himg.
    destruct (forward_image _ _ _ _ _ _ _) as [[[image' targets1]|e] σ1];
      [|discriminate].
    destruct Himg as (_ & _ & _ & Hlen).
    destruct (forward_loop _ _ _ _ (take k rest) _ _) as [[[done' tg']|e] σ2] eqn:Eloop;
      [|discriminate].
    injection Eprefix as _ -> <-.
    rewrite (IH (S i0) targets1 σ1 rest done' Hk); [reflexivity| |].
    + rewrite Eloop. reflexivity.
    + replace (S i0 + k)%nat with (i0 + S k)%nat by lia.
      eapply target_available_length; [symmetry; exact Hlen|exact Havk].
Qed.
End ForwardSpec.

(** ** forward: the claims *)

Section ForwardClaims.
Context {F : Type} `{TorchScalar F}.
Variable bilinear : tensor F -> Q -> list nat -> F.
Implicit Types σ : gmap positive (gmap string (tensor F)).
Implicit Types targets : option (list (option positive)).

Lemma image_sizes_asserted (images : list (tensor F)) :
  Forall (fun img => dim img = 3%nat) images ->
  exists l, mapM (fun image_size : list nat =>
                    match image_size with
                    | [h; w] => Ok (h, w)
                    | _ => Raise AssertionError
                    end) ((fun img => last2 (shape img)) <$> images) = Ok l.
Proof.
  induction 1 as [|img images Hd _ (l & IH)]; [exists []; reflexivity|].
  destruct (dim3_shape img Hd) as (c & h & w & E).
  exists ((h, w) :: l). cbn [fmap list_fmap mapM]. rewrite E.
  cbn [last2 length Nat.sub drop mbind result_bind].
  change (list_fmap _ _ ?f images) with (f <$> images). rewrite IH. reflexivity.
Qed.

(** After the loop only the packing of an empty batch can fail. *)
Lemma forward_outcome (self : @GeneralizedRCNNTransform F) tracing u images targets σ :
  match forward_loop bilinear self u 0 images targets σ with
  | (Ok (images', targets'), σ') =>
      (images = [] /\
       forward bilinear self tracing u images targets σ = (Raise IndexError, σ')) \/
      (exists image_list,
          forward bilinear self tracing u images targets σ
          = (Ok (image_list, targets'), σ'))
  | (Raise e, σ') =>
      forward bilinear self tracing u images targets σ = (Raise e, σ')
  end.
Proof.
  pose proof (forward_loop_outcome bilinear self u images 0 targets σ) as Hloop.
  unfold forward, mbind, M_bind, bind.
  destruct (forward_loop _ _ _ _ _ _ _) as [[[images' targets']|e] σ']; [|reflexivity].
  destruct Hloop as (Hall & Hlen & _). unfold lift.
  destruct images' as [|img rest'] eqn:Eimages'.
  - left. split; [destruct images; [reflexivity|discriminate]|].
    rewrite batch_images_empty. reflexivity.
  - right. rewrite <- Eimages' in *.
    destruct (batch_images_packed tracing images' 32) as (t & -> & _);
      [rewrite Eimages'; discriminate|exact Hall|lia|].
    destruct (image_sizes_asserted images' Hall) as (l & ->).
    eexists. reflexivity.
Qed.

(** Claim C7, as amended. forward fails with the validation error naming
    a shape exactly when some image [k] with that shape is not 3-D, the
    loop has processed the images before [k] without any failure, and
    targets, when given, has an entry at index [k]; and the assertion on
    the length of the image sizes never fails. *)
Theorem forward_validation_error (self : @GeneralizedRCNNTransform F) tracing u
        images targets σ :
  (forall shp σ',
      forward bilinear self tracing u images targets σ
      = (Raise (ValueError (ExpectedImages3d shp)), σ') <->
      exists k image done targets',
        images !! k = Some image /\ dim image <> 3%nat /\ shp = shape image /\
        forward_loop bilinear self u 0 (take k images) targets σ
        = (Ok (done, targets'), σ') /\
        target_available targets k) /\
  (forall σ',
      forward bilinear self tracing u images targets σ <> (Raise AssertionError, σ')).
Proof.
  pose proof (forward_outcome self tracing u images targets σ) as Hfwd.
  pose proof (forward_loop_outcome bilinear self u images 0 targets σ) as Hloop.
  split.
  - intros shp σ'. split.
    + intros Eforward.
      destruct (forward_loop _ _ _ _ _ _ _) as [[[images' targets']|e] σ1].
      * destruct Hfwd as [[_ E]|[il E]]; rewrite E in Eforward; discriminate.
      * rewrite Hfwd in Eforward. injection Eforward as -> ->.
        destruct (Hloop eq_refl) as (k & image & done & tg & Hk & Hd & [= ->] & E & Hav).
        exists k, image, done, tg. auto.
    + intros (k & image & done & tg & Hk & Hd & -> & E & Hav).
      assert (Hstop : stopped_at bilinear self u 0 images targets σ
                        (ValueError (ExpectedImages3d (shape image))) σ').
      { exists k, image, done, tg. auto. }
      apply forward_loop_stops in Hstop. rewrite Hstop in Hfwd. exact Hfwd.
  - intros σ' Eforward.
    destruct (forward_loop _ _ _ _ _ _ _) as [[[images' targets']|e] σ1].
    + destruct Hfwd as [[_ E]|[il E]]; rewrite E in Eforward; discriminate.
    + rewrite Hfwd in Eforward. injection Eforward as -> ->.
      destruct (Hloop eq_refl) as (k & image & done & tg & _ & _ & Habs & _).
      discriminate.
Qed.
End ForwardClaims.

(** The second image is not 3-D, yet forward fails on the first one, whose
    four channels do not match the three entries of the mean: the failure is
    the one of the subtraction, not the validation error. *)
Lemma forward_other_failure_first :
  (exists image, image ∈ [rgba_image; gray_image] /\ dim image <> 3%nat) /\
  forward no_interpolation (example_transform false) false (fun _ => 0%Q)
          [rgba_image; gray_image] None ∅
  = (Raise RuntimeError, ∅).
Proof.
  split.
  - exists gray_image. split; [right; left|discriminate].
  - reflexivity.
Qed.

(** A batch made of one two-dimensional image is refused with its shape. *)
Lemma forward_validation_error_witness :
  forward no_interpolation (example_transform false) false (fun _ => 0%Q)
          [gray_image] None ∅
  = (Raise (ValueError (ExpectedImages3d [2%nat; 2%nat])), ∅).
Proof.
  apply (proj1 (forward_validation_error no_interpolation (example_transform false)
                  false (fun _ => 0%Q) [gray_image] None ∅)).
  exists 0%nat, gray_image, [], None.
  split; [reflexivity|]. split; [discriminate|]. split; [reflexivity|].
  split; [reflexivity|exact I].
Defined.

(** The two packing paths on the images [img_a] and [img_b] with stride 4. *)
Lemma onnx_batch_images_agrees_witness :
  exists t t',
    batch_images false [img_a; img_b] 4 = Ok t /\
    _onnx_batch_images [img_a; img_b] 4 = Ok t' /\
    shape t' = shape t /\
    forall idx, in_bounds (shape t) idx = true -> data t' idx = data t idx.
Proof.
  apply (onnx_batch_images_agrees [img_a; img_b] 4);
    [discriminate | repeat constructor | lia].
Defined.

(** No IndexError on the images [img_a] and [img_b]. *)
Lemma batch_images_needs_images_witness :
  batch_images false [img_a; img_b] 4 <> Raise IndexError.
Proof.
  apply (proj2 (proj2 (proj2 batch_images_needs_images)) false [img_a; img_b] 4);
    [discriminate | repeat constructor].
Defined.

(** The scores of the first prediction are kept, and its dictionary after
    the call does not depend on the sizes given for the second one. *)
Lemma postprocess_touches_only_boxes_witness :
  let out := postprocess (example_transform false) [1%positive; 2%positive]
               [(640, 853); (640, 853)] [(600, 800); (600, 800)] example_predictions in
  let out2 := postprocess (example_transform false) [1%positive; 2%positive]
                [(640, 853); (320, 427)] [(600, 800); (300, 400)] example_predictions in
  entry out.2 1%positive "scores" = entry example_predictions 1%positive "scores" /\
  out2.2 !! 1%positive = out.2 !! 1%positive.
Proof.
  intros out out2.
  pose proof (postprocess_touches_only_boxes (example_transform false)
                [1%positive; 2%positive] [(640, 853); (640, 853)]
                [(600, 800); (600, 800)] example_predictions out.1 out.2
                eq_refl (surjective_pairing out)) as (Hkeys & _ & Hlocal).
  split.
  - apply Hkeys. discriminate.
  - apply (Hlocal [(640, 853); (320, 427)] [(600, 800); (300, 400)] out2.1 out2.2 0%nat).
    + exact example_predictions_NoDup.
    + exact example_predictions_have_boxes.
    + reflexivity.
    + reflexivity.
    + reflexivity.
    + apply surjective_pairing.
Defined.

(** * Further properties *)

(** ** normalize *)

Lemma broadcast_shapes_column (c h w m : nat) :
  broadcast_shapes [c; h; w] [m; 1%nat; 1%nat] =
  if (c =? m)%nat then Ok [c; h; w]
  else if (c =? 1)%nat then Ok [m; h; w]
  else if (m =? 1)%nat then Ok [c; h; w]
  else Raise RuntimeError.
Proof.
  unfold broadcast_shapes. cbn [rev app broadcast_rev mbind result_bind].
  destruct (Nat.eqb_spec c m) as [->|Hcm]; cbn [mbind result_bind].
  - destruct (Nat.eqb_spec h 1) as [->|Hh]; destruct (Nat.eqb_spec w 1) as [->|Hw];
      reflexivity.
  - destruct (Nat.eqb_spec c 1) as [->|Hc]; cbn [mbind result_bind].
    + destruct (Nat.eqb_spec h 1) as [->|Hh]; destruct (Nat.eqb_spec w 1) as [->|Hw];
        reflexivity.
    + destruct (Nat.eqb_spec m 1) as [->|Hm]; cbn [mbind result_bind]; [|reflexivity].
      destruct (Nat.eqb_spec h 1) as [->|Hh]; destruct (Nat.eqb_spec w 1) as [->|Hw];
        reflexivity.
Qed.

Lemma in_bounds3 (c h w i j k : nat) :
  in_bounds [c; h; w] [i; j; k] = true <-> (i < c)%nat /\ (j < h)%nat /\ (k < w)%nat.
Proof.
  cbn [in_bounds]. rewrite !andb_true_iff, !Nat.ltb_lt. tauto.
Qed.

Lemma bcast_index_column (m i j k : nat) :
  (i < m)%nat -> bcast_index [m; 1%nat; 1%nat] [i; j; k] = [i; 0%nat; 0%nat].
Proof.
  intros Hi. unfold bcast_index. cbn.
  destruct (Nat.eqb_spec m 1); [f_equal; lia|reflexivity].
Qed.

Section NormalizeProps.
Context {F : Type} `{TorchScalar F}.

(** The general form: the channel counts agree or the image has one
    channel. *)
Lemma normalize_channels (self : @GeneralizedRCNNTransform F) (image : tensor F)
      (c h w m : nat) :
  shape image = [c; h; w] ->
  length (image_mean self) = m -> length (image_std self) = m ->
  c = m \/ c = 1%nat ->
  exists t, normalize self image = Ok t /\ shape t = [m; h; w] /\
    forall ch r col mu sd,
      (ch < m)%nat -> (r < h)%nat -> (col < w)%nat ->
      image_mean self !! ch = Some mu -> image_std self !! ch = Some sd ->
      data t [ch; r; col] =
        t_div (t_sub (data image [if (c =? 1)%nat then 0%nat else ch; r; col]) mu) sd.
Proof.
  intros Hs Hmean Hstd Hc.
  assert (E1 : broadcast_shapes [c; h; w] [m; 1%nat; 1%nat] = Ok [m; h; w]).
  { rewrite broadcast_shapes_column. destruct (Nat.eqb_spec c m) as [->|?]; [reflexivity|].
    destruct (Nat.eqb_spec c 1); [reflexivity|lia]. }
  assert (E2 : broadcast_shapes [m; h; w] [m; 1%nat; 1%nat] = Ok [m; h; w]).
  { rewrite broadcast_shapes_column, Nat.eqb_refl. reflexivity. }
  unfold normalize, broadcast_op, column_vector. cbn [shape]. rewrite Hs, Hmean, Hstd, E1.
  cbn [mbind result_bind shape]. rewrite E2. cbn [mbind result_bind].
  eexists. split; [reflexivity|]. split; [reflexivity|].
  intros ch r col mu sd Hch Hr Hcol Hmu Hsd. cbn [data].
  rewrite (bcast_index_in_bounds [m; h; w]) by (apply in_bounds3; auto).
  rewrite bcast_index_column by exact Hch. rewrite Hmu, Hsd. cbn [default].
  f_equal. f_equal. f_equal.
  unfold bcast_index. cbn.
  destruct (Nat.eqb_spec c 1) as [->|Hc1].
  - f_equal. f_equal; [destruct (Nat.eqb_spec h 1); [lia|reflexivity]|].
    f_equal. destruct (Nat.eqb_spec w 1); [lia|reflexivity].
  - f_equal. f_equal; [destruct (Nat.eqb_spec h 1); [lia|reflexivity]|].
    f_equal. destruct (Nat.eqb_spec w 1); [lia|reflexivity].
Qed.

(** Property X1. On an image of shape [c, h, w] with c means and c
    deviations configured, normalize succeeds, keeps the shape, and the
    pixel at (ch, r, col) becomes (pixel - image_mean[ch]) / image_std[ch]. *)
Theorem normalize_per_channel (self : @GeneralizedRCNNTransform F) (image : tensor F)
        (c h w : nat) :
  shape image = [c; h; w] ->
  length (image_mean self) = c -> length (image_std self) = c ->
  exists t, normalize self image = Ok t /\ shape t = [c; h; w] /\
    forall ch r col mu sd,
      (ch < c)%nat -> (r < h)%nat -> (col < w)%nat ->
      image_mean self !! ch = Some mu -> image_std self !! ch = Some sd ->
      data t [ch; r; col] = t_div (t_sub (data image [ch; r; col]) mu) sd.
Proof.
  intros Hs Hmean Hstd.
  destruct (normalize_channels self image c h w c Hs Hmean Hstd (or_introl eq_refl))
    as (t & E & Hst & Hd).
  exists t. split; [exact E|]. split; [exact Hst|].
  intros ch r col mu sd Hch Hr Hcol Hmu Hsd.
  rewrite (Hd ch r col mu sd Hch Hr Hcol Hmu Hsd).
  destruct (Nat.eqb_spec c 1) as [->|_]; [|reflexivity].
  replace ch with 0%nat by lia. reflexivity.
Qed.

(** Property X2. On a one-channel image of shape [1, h, w] with m means and
    m deviations configured, normalize succeeds and returns m channels:
    channel ch holds (pixel - image_mean[ch]) / image_std[ch] of the single
    input channel. *)
Theorem normalize_expands_single_channel (self : @GeneralizedRCNNTransform F)
        (image : tensor F) (h w m : nat) :
  shape image = [1%nat; h; w] ->
  length (image_mean self) = m -> length (image_std self) = m ->
  exists t, normalize self image = Ok t /\ shape t = [m; h; w] /\
    forall ch r col mu sd,
      (ch < m)%nat -> (r < h)%nat -> (col < w)%nat ->
      image_mean self !! ch = Some mu -> image_std self !! ch = Some sd ->
      data t [ch; r; col] = t_div (t_sub (data image [0%nat; r; col]) mu) sd.
Proof.
  intros Hs Hmean Hstd.
  apply (normalize_channels self image 1 h w m Hs Hmean Hstd (or_intror eq_refl)).
Qed.

(** Property X3. normalize fails with RuntimeError on a 3-D image whose
    channel count differs from the number of configured means when neither
    of the two is 1. *)
Theorem normalize_channel_mismatch (self : @GeneralizedRCNNTransform F)
        (image : tensor F) (c h w : nat) :
  shape image = [c; h; w] ->
  c <> length (image_mean self) -> c <> 1%nat -> length (image_mean self) <> 1%nat ->
  normalize self image = Raise RuntimeError.
Proof.
  intros Hs Hcm Hc Hm. unfold normalize, broadcast_op, column_vector. cbn [shape].
  rewrite Hs, broadcast_shapes_column.
  destruct (Nat.eqb_spec c (length (image_mean self))); [contradiction|].
  destruct (Nat.eqb_spec c 1); [contradiction|].
  destruct (Nat.eqb_spec (length (image_mean self)) 1); [contradiction|]. reflexivity.
Qed.
End NormalizeProps.

(** ** max_by_axis *)

Lemma max_by_axis_inner_ok (sublist maxes : list Z) (index : nat) :
  (index + length sublist <= length maxes)%nat ->
  exists maxes', max_by_axis_inner maxes index sublist = Ok maxes' /\
    length maxes' = length maxes /\
    forall i m, maxes !! i = Some m ->
      exists m', maxes' !! i = Some m' /\ m <= m' /\
        (forall x, (index <= i)%nat -> sublist !! (i - index)%nat = Some x -> x <= m') /\
        (m' = m \/ ((index <= i)%nat /\ sublist !! (i - index)%nat = Some m')).
Proof.
  revert maxes index. induction sublist as [|item rest IH]; intros maxes index Hlen.
  - exists maxes. split; [reflexivity|]. split; [reflexivity|].
    intros i m Hi. exists m. split; [exact Hi|]. split; [lia|].
    split; [intros x _ Hx; rewrite lookup_nil in Hx; discriminate|left; reflexivity].
  - cbn [length] in Hlen.
    destruct (lookup_lt_is_Some_2 maxes index ltac:(lia)) as [m0 Hm0].
    cbn [max_by_axis_inner]. rewrite (getitem_lookup _ _ _ Hm0). cbn [mbind result_bind].
    unfold setitem.
    destruct (IH (<[index := Z.max m0 item]> maxes) (S index)) as (maxes' & E & Hl & Hp).
    { rewrite length_insert. lia. }
    exists maxes'. split; [exact E|]. split; [rewrite Hl; apply length_insert|].
    intros i m Hi. destruct (decide (i = index)) as [->|Hne].
    + assert (m = m0) as -> by congruence.
      destruct (Hp index (Z.max m0 item)) as (m' & Hm' & Hge & Hub & Hatt).
      { apply list_lookup_insert_eq. eapply lookup_lt_Some. exact Hm0. }
      exists m'. split; [exact Hm'|]. split; [lia|]. split.
      * intros x _ Hx. rewrite Nat.sub_diag in Hx. injection Hx as <-. lia.
      * destruct Hatt as [->|[Hle _]]; [|lia].
        destruct (Z.max_spec m0 item) as [[_ ->]|[_ ->]].
        -- right. split; [lia|]. rewrite Nat.sub_diag. reflexivity.
        -- left. reflexivity.
    + destruct (Hp i m) as (m' & Hm' & Hge & Hub & Hatt).
      { rewrite list_lookup_insert_ne by congruence. exact Hi. }
      exists m'. split; [exact Hm'|]. split; [exact Hge|]. split.
      * intros x Hle Hx. assert (Hlt : (S index <= i)%nat) by lia.
        apply (Hub x Hlt). replace (i - index)%nat with (S (i - S index)) in Hx by lia.
        exact Hx.
      * destruct Hatt as [->|[Hle Hx]]; [left; reflexivity|].
        right. split; [lia|].
        replace (i - index)%nat with (S (i - S index)) by lia. exact Hx.
Qed.

Lemma max_by_axis_inner_long (sublist maxes : list Z) (index : nat) :
  (index <= length maxes)%nat -> (length maxes < index + length sublist)%nat ->
  max_by_axis_inner maxes index sublist = Raise IndexError.
Proof.
  revert maxes index. induction sublist as [|item rest IH]; intros maxes index Hidx Hlen.
  - cbn [length] in Hlen. lia.
  - cbn [max_by_axis_inner length] in *.
    destruct (le_lt_dec (length maxes) index) as [Hge|Hlt].
    + rewrite getitem_nat_Raise by exact Hge. reflexivity.
    + destruct (lookup_lt_is_Some_2 maxes index Hlt) as [m0 Hm0].
      rewrite (getitem_lookup _ _ _ Hm0). cbn [mbind result_bind].
      apply IH; unfold setitem; rewrite length_insert; lia.
Qed.

Lemma max_by_axis_fold_ok (rest : list (list Z)) (first : list Z) :
  Forall (fun l => (length l <= length first)%nat) rest ->
  exists maxes,
    foldM (fun maxes sublist => max_by_axis_inner maxes 0 sublist) first rest = Ok maxes /\
    length maxes = length first /\
    forall i m, first !! i = Some m ->
      exists m', maxes !! i = Some m' /\ m <= m' /\
        (forall l x, l ∈ rest -> l !! i = Some x -> x <= m') /\
        (m' = m \/ exists l, l ∈ rest /\ l !! i = Some m').
Proof.
  intros Hall. revert first Hall.
  induction rest as [|sub rest IH]; intros first Hall.
  - exists first. split; [reflexivity|]. split; [reflexivity|].
    intros i m Hi. exists m. split; [exact Hi|]. split; [lia|].
    split; [intros l x Hl; inversion Hl|left; reflexivity].
  - apply Forall_cons in Hall as [Hsub Hall].
    destruct (max_by_axis_inner_ok sub first 0 ltac:(lia)) as (m1 & E1 & Hl1 & Hp1).
    destruct (IH m1) as (maxes & E & Hl & Hp).
    { rewrite Hl1. exact Hall. }
    exists maxes. cbn [foldM]. rewrite E1. cbn [mbind result_bind].
    split; [exact E|]. split; [congruence|].
    intros i m Hi.
    destruct (Hp1 i m Hi) as (m' & Hm' & Hge' & Hub' & Hatt').
    destruct (Hp i m' Hm') as (m'' & Hm'' & Hge'' & Hub'' & Hatt'').
    exists m''. split; [exact Hm''|]. split; [lia|]. split.
    + intros l x Hl0 Hx. apply elem_of_cons in Hl0 as [->|Hl0].
      * specialize (Hub' x ltac:(lia)). rewrite Nat.sub_0_r in Hub'.
        specialize (Hub' Hx). lia.
      * apply (Hub'' l x Hl0 Hx).
    + destruct Hatt'' as [->|(l & Hl0 & Hx)].
      * destruct Hatt' as [->|[_ Hx]]; [left; reflexivity|].
        right. exists sub. rewrite Nat.sub_0_r in Hx. split; [left|exact Hx].
      * right. exists l. split; [right; exact Hl0|exact Hx].
Qed.

(** Property X13. When no sublist is longer than the first one, max_by_axis
    returns a list as long as the first sublist whose entry at each index is
    an upper bound of, and is attained by, the sublists that have that
    index. *)
Theorem max_by_axis_pointwise (first : list Z) (rest : list (list Z)) :
  Forall (fun l => (length l <= length first)%nat) rest ->
  exists maxes, max_by_axis (first :: rest) = Ok maxes /\
    length maxes = length first /\
    (forall l i x, l ∈ first :: rest -> l !! i = Some x ->
       exists m, maxes !! i = Some m /\ x <= m) /\
    (forall i m, maxes !! i = Some m -> exists l, l ∈ first :: rest /\ l !! i = Some m).
Proof.
  intros Hall. destruct (max_by_axis_fold_ok rest first Hall) as (maxes & E & Hl & Hp).
  exists maxes. unfold max_by_axis.
  change (getitem (first :: rest) 0) with (Ok first).
  cbn [mbind result_bind]. rewrite skipn_cons, drop_0.
  split; [exact E|]. split; [exact Hl|]. split.
  - intros l i x Hin Hx.
    assert (Hi : (i < length first)%nat).
    { apply elem_of_cons in Hin as [->|Hin]; [eapply lookup_lt_Some; exact Hx|].
      rewrite Forall_forall in Hall. specialize (Hall l Hin).
      apply lookup_lt_Some in Hx. lia. }
    destruct (lookup_lt_is_Some_2 first i Hi) as [m0 Hm0].
    destruct (Hp i m0 Hm0) as (m' & Hm' & Hge & Hub & _).
    exists m'. split; [exact Hm'|].
    apply elem_of_cons in Hin as [->|Hin]; [|apply (Hub l x Hin Hx)].
    assert (x = m0) as -> by congruence. exact Hge.
  - intros i m Hm.
    assert (Hi : (i < length first)%nat) by (rewrite <- Hl; eapply lookup_lt_Some; exact Hm).
    destruct (lookup_lt_is_Some_2 first i Hi) as [m0 Hm0].
    destruct (Hp i m0 Hm0) as (m' & Hm' & _ & _ & Hatt).
    assert (m' = m) as -> by congruence.
    destruct Hatt as [->|(l & Hin & Hx)].
    + exists first. split; [left|exact Hm0].
    + exists l. split; [right; exact Hin|exact Hx].
Qed.

(** Property X14. When some later sublist is longer than the first one,
    max_by_axis fails with IndexError. *)
Theorem max_by_axis_longer_sublist (first : list Z) (rest : list (list Z)) :
  Exists (fun l => (length first < length l)%nat) rest ->
  max_by_axis (first :: rest) = Raise IndexError.
Proof.
  intros Hex. unfold max_by_axis.
  change (getitem (first :: rest) 0) with (Ok first).
  cbn [mbind result_bind]. rewrite skipn_cons, drop_0.
  assert (Hgen : forall maxes, length maxes = length first ->
            foldM (fun maxes sublist => max_by_axis_inner maxes 0 sublist) maxes rest
            = Raise IndexError); [|apply Hgen; reflexivity].
  induction Hex as [sub rest Hlong|sub rest _ IH]; intros maxes Hlen; cbn [foldM].
  - rewrite max_by_axis_inner_long by lia. reflexivity.
  - destruct (le_lt_dec (length sub) (length maxes)) as [Hle|Hlt].
    + destruct (max_by_axis_inner_ok sub maxes 0 ltac:(lia)) as (m1 & -> & Hl1 & _).
      cbn [mbind result_bind]. apply IH. congruence.
    + rewrite max_by_axis_inner_long by lia. reflexivity.
Qed.

Lemma max_by_axis_pointwise_witness :
  exists maxes, max_by_axis [[3; 5; 7]; [4; 2]; [1; 9; 7]] = Ok maxes /\
    length maxes = 3%nat /\
    (forall l i x, l ∈ [[3; 5; 7]; [4; 2]; [1; 9; 7]] -> l !! i = Some x ->
       exists m, maxes !! i = Some m /\ x <= m) /\
    (forall i m, maxes !! i = Some m ->
       exists l, l ∈ [[3; 5; 7]; [4; 2]; [1; 9; 7]] /\ l !! i = Some m).
Proof.
  apply (max_by_axis_pointwise [3; 5; 7] [[4; 2]; [1; 9; 7]]).
  repeat constructor.
Defined.

Lemma max_by_axis_longer_sublist_witness :
  max_by_axis [[3; 5; 7]; [4; 2; 1; 8]] = Raise IndexError.
Proof.
  apply (max_by_axis_longer_sublist [3; 5; 7] [[4; 2; 1; 8]]).
  left. cbn. lia.
Defined.

(** ** The target size of resize *)

Lemma int_of_float_nonneg (u : Q) : (0 <= u)%Q -> int_of_float u = Qfloor u.
Proof.
  destruct u as [n d]. unfold Qle, int_of_float, Qfloor. cbn. intros Hn.
  apply Z.quot_div_nonneg; lia.
Qed.

Lemma Qfloor_lt_nat (u : Q) (n : nat) :
  (0 <= u)%Q -> (u < inject_Z (Z.of_nat n))%Q -> 0 <= Qfloor u < Z.of_nat n.
Proof.
  intros H0 Hn. split.
  - change 0 with (Qfloor 0). apply Qfloor_resp_le. exact H0.
  - pose proof (Qfloor_le u) as Hle.
    assert (Hlt : (inject_Z (Qfloor u) < inject_Z (Z.of_nat n))%Q)
      by (eapply Qle_lt_trans; eassumption).
    rewrite <- Zlt_Qlt in Hlt. exact Hlt.
Qed.

Section ChoiceProps.
Context {F : Type}.

(** Property X4. In training mode the target minimum edge of resize is the
    entry of min_size at index floor(u), where u is the number drawn
    uniformly from [0, len(min_size)): always one of the configured sizes. *)
Theorem resize_size_training_in_min_size (self : @GeneralizedRCNNTransform F) (u : Q) :
  training self = true ->
  (0 <= u)%Q -> (u < inject_Z (Z.of_nat (length (min_size self))))%Q ->
  exists s, resize_size self u = Ok (inject_Z s) /\
            min_size self !! Z.to_nat (Qfloor u) = Some s.
Proof.
  intros Htr H0 Hlt. unfold resize_size, torch_choice. rewrite Htr.
  rewrite int_of_float_nonneg by exact H0.
  destruct (Qfloor_lt_nat u _ H0 Hlt) as [Hf0 Hfn].
  destruct (lookup_lt_is_Some_2 (min_size self) (Z.to_nat (Qfloor u)) ltac:(lia))
    as [s Hs].
  exists s. split; [|exact Hs].
  rewrite <- (Z2Nat.id (Qfloor u)) by exact Hf0.
  rewrite (getitem_lookup _ _ _ Hs). reflexivity.
Qed.

(** Property X5. A transform constructed with a single number n as min_size
    uses n as the target minimum edge, in training mode and in inference
    mode alike. *)
Theorem resize_size_scalar_min_size (mode : bool) (n mx : Z) (mean std : list F) (u : Q) :
  (0 <= u)%Q -> (u < 1)%Q ->
  resize_size (set_training mode (__init__ (Scalar n) mx mean std)) u = Ok (inject_Z n).
Proof.
  intros H0 H1. destruct mode; [|reflexivity].
  destruct (resize_size_training_in_min_size
              (set_training true (__init__ (Scalar n) mx mean std)) u eq_refl H0 H1)
    as (s & -> & Hs).
  pose proof (Qfloor_lt_nat u 1 H0 H1) as Hf.
  replace (Z.to_nat (Qfloor u)) with 0%nat in Hs by lia.
  injection Hs as <-. reflexivity.
Qed.
End ChoiceProps.

(** ** The size of the resized image *)

Lemma inject_nat_pos (n : nat) : (0 < n)%nat -> (0 < inject_Z (Z.of_nat n))%Q.
Proof. intros Hn. unfold Qlt. cbn. lia. Qed.




Section ResizeBounds.
Context {F : Type} `{TorchScalar F}.
Variable bilinear : tensor F -> Q -> list nat -> F.
Implicit Types σ : gmap positive (gmap string (tensor F)).


End ResizeBounds.

(** ** resize and its target *)

Section ResizeEdges.
Context {F : Type} `{TorchScalar F}.
Variable bilinear : tensor F -> Q -> list nat -> F.
Implicit Types σ : gmap positive (gmap string (tensor F)).

End ResizeEdges.

Section ResizeTheorems.
Context {F : Type} `{TorchScalar F}.
Variable bilinear : tensor F -> Q -> list nat -> F.
Implicit Types σ : gmap positive (gmap string (tensor F)).




(** Property X9. An image one of whose last two axes has length 0 makes
    resize fail with ZeroDivisionError when it divides the target size by
    the minimum edge, whatever the target is, provided a target size could
    be selected. *)
Theorem resize_zero_edge (self : @GeneralizedRCNNTransform F) (u : Q)
        (image : tensor F) (h w : nat) (size : Q) target σ :
  last2 (shape image) = [h; w] -> Nat.min h w = 0%nat ->
  resize_size self u = Ok size ->
  resize bilinear self u image target σ = (Raise ZeroDivisionError, σ).
Proof.
  intros Hs Hmin Hsize. unfold resize. rewrite Hs.
  unfold resize_scale_factor. rewrite Hsize, Hmin. reflexivity.
Qed.

(** Property X10. With an empty min_size, resize fails with IndexError for
    every image with at least two axes, in training mode and in inference
    mode. *)
Theorem resize_empty_min_size (self : @GeneralizedRCNNTransform F) (u : Q)
        (image : tensor F) (h w : nat) target σ :
  last2 (shape image) = [h; w] -> min_size self = [] ->
  resize bilinear self u image target σ = (Raise IndexError, σ).
Proof.
  intros Hs Hmin. unfold resize. rewrite Hs.
  unfold resize_scale_factor, resize_size, torch_choice. rewrite Hmin.
  destruct (training self); rewrite getitem_nil; reflexivity.
Qed.

(** Property X11. For a 3-D image with positive height and width whose
    longer edge exceeds max_size times its shorter edge, the scale factor
    max_size / max(h, w) gives an empty shorter edge and resize fails with
    RuntimeError in the interpolation. *)
Theorem resize_too_elongated (self : @GeneralizedRCNNTransform F) (u : Q)
        (image : tensor F) (c h w : nat) (sz : Z) target σ :
  shape image = [c; h; w] -> (0 < h)%nat -> (0 < w)%nat ->
  resize_size self u = Ok (inject_Z sz) -> 1 <= sz ->
  Z.of_nat (Nat.min h w) * max_size self < Z.of_nat (Nat.max h w) ->
  resize bilinear self u image target σ = (Raise RuntimeError, σ).
Proof.
  intros Hs Hh Hw Hsize Hsz Hlong.
  destruct (resize_scale_factor_cases self u h w (inject_Z sz) Hh Hw Hsize)
    as [_ Hcl].
  set (m := inject_Z (Z.of_nat (Nat.min h w))) in *.
  set (M := inject_Z (Z.of_nat (Nat.max h w))) in *.
  set (X := inject_Z (max_size self)) in *.
  assert (Hm : (0 < m)%Q) by (apply inject_nat_pos; lia).
  assert (HM : (0 < M)%Q) by (apply inject_nat_pos; lia).
  assert (HM0 : ~ (M == 0)%Q) by (intros E; rewrite E in HM; inversion HM).
  assert (Hm0 : ~ (m == 0)%Q) by (intros E; rewrite E in Hm; inversion Hm).
  assert (HmX : (m * X < M)%Q).
  { unfold m, X, M. rewrite <- inject_Z_mult, <- Zlt_Qlt. exact Hlong. }
  assert (Hclip : (X < M * (inject_Z sz / m))%Q).
  { assert (E : (M * (inject_Z sz / m) == (M * inject_Z sz) / m)%Q) by (field; exact Hm0).
    rewrite E. apply Qlt_shift_div_l; [exact Hm|].
    rewrite Qmult_comm. eapply Qlt_le_trans; [exact HmX|].
    rewrite <- (Qmult_1_r M) at 1. apply Qmult_le_l; [exact HM|].
    rewrite <- (Zle_Qle 1). exact Hsz. }
  specialize (Hcl Hclip).
  assert (Hsmall : Qfloor (m * (X / M)) <= 0).
  { assert (Hlt : (m * (X / M) < 1)%Q).
    { assert (E : (m * (X / M) == (m * X) / M)%Q) by (field; exact HM0).
      rewrite E. apply Qlt_shift_div_r; [exact HM|]. rewrite Qmult_1_l. exact HmX. }
    pose proof (Qfloor_le (m * (X / M))) as Hfl.
    assert (Hz : (inject_Z (Qfloor (m * (X / M))) < inject_Z 1)%Q)
      by (eapply Qle_lt_trans; eassumption).
    rewrite <- Zlt_Qlt in Hz. lia. }
  unfold resize. rewrite Hs. cbn [last2 length Nat.sub drop]. rewrite Hcl.
  unfold mbind, M_bind, bind, lift, interpolate, unsqueeze0. cbn [shape]. rewrite Hs.
  fold X M.
  assert (Hor : (Qfloor (inject_Z (Z.of_nat h) * (X / M)) <=? 0)
                || (Qfloor (inject_Z (Z.of_nat w) * (X / M)) <=? 0) = true).
  { apply orb_true_iff. unfold m in Hsmall.
    destruct (Nat.min_spec h w) as [[_ Em]|[_ Em]]; rewrite Em in Hsmall;
      [left|right]; apply Z.leb_le; exact Hsmall. }
  rewrite <- !orb_assoc, Hor, !orb_true_r. reflexivity.
Qed.
End ResizeTheorems.

(** ** resize_boxes *)

Section BoxOutcome.
Context {F : Type} `{TorchScalar F}.

Lemma zip_with_length2 {A B C} (f : A -> B -> C) (l : list A) (k : list B) :
  Nat.min (length l) (length k) = 2%nat <->
  exists a b, zip_with f l k = [a; b].
Proof.
  rewrite <- (length_zip_with f l k).
  destruct (zip_with f l k) as [|a [|b [|? ?]]]; cbn; split; try lia;
    try (intros (? & ? & ?); discriminate).
  eauto.
Qed.

(** Property X15. resize_boxes succeeds exactly when the shorter of the two
    size lists has two entries and the boxes have at least two axes with
    axis 1 of length 4; otherwise it fails with the unpacking ValueError, or
    with IndexError when the boxes have fewer than two axes. *)
Theorem resize_boxes_outcome (boxes : tensor F) (original_size new_size : list Z) :
  ((exists t, resize_boxes boxes original_size new_size = Ok t) <->
   Nat.min (length new_size) (length original_size) = 2%nat /\
   exists n rest, shape boxes = n :: 4%nat :: rest) /\
  (forall e, resize_boxes boxes original_size new_size = Raise e ->
     e = ValueError UnpackMismatch \/
     (e = IndexError /\ (dim boxes < 2)%nat /\
      Nat.min (length new_size) (length original_size) = 2%nat)).
Proof.
  unfold resize_boxes, unbind1, dim.
  pose proof (zip_with_length2 (fun s s_orig => t_div (t_of_Z s) (t_of_Z s_orig))
                new_size original_size) as Hzip.
  destruct (zip_with _ new_size original_size) as [|rh [|rw [|? ?]]] eqn:Ez.
  1,2,4: split; [split; [intros [t Et]; discriminate|];
                 intros [Hlen _]; apply Hzip in Hlen as (? & ? & ?); discriminate
                |intros e [= <-]; left; reflexivity].
  assert (Hlen : Nat.min (length new_size) (length original_size) = 2%nat)
    by (apply Hzip; eauto).
  destruct (shape boxes) as [|n [|k rest]]; cbn [mbind result_bind].
  1,2: split; [split; [intros [t Et]; discriminate|];
               intros [_ (? & ? & ?)]; discriminate
              |intros e [= <-]; right; cbn; split; [reflexivity|split; [lia|exact Hlen]]].
  destruct k as [|[|[|[|[|k]]]]]; cbn [seq fmap list_fmap].
  5: split; [split; [intros _; split; [exact Hlen|eauto]|intros _; eauto]
            |intros e; discriminate].
  all: split; [split; [intros [t Et]; discriminate|];
               intros [_ (? & ? & [= ])]; try lia
              |intros e [= <-]; left; reflexivity].
Qed.
End BoxOutcome.

Lemma Q_compose (x : Q) (a b c : Z) :
  a <> 0 -> b <> 0 ->
  (x * (inject_Z b / inject_Z a) * (inject_Z c / inject_Z b)
   == x * (inject_Z c / inject_Z a))%Q.
Proof.
  intros Ha Hb.
  assert (~ inject_Z a == 0)%Q by (unfold Qeq; cbn; lia).
  assert (~ inject_Z b == 0)%Q by (unfold Qeq; cbn; lia).
  field. split; assumption.
Qed.

(** Property X16. Over the rationals, resizing [N, 4] boxes from size a to
    size b and then from b to size c gives the boxes that resizing from a to
    c gives, provided no entry of a and b is zero. *)
Theorem resize_boxes_compose (boxes : tensor Q) (n : nat)
        (a_h a_w b_h b_w c_h c_w : Z) :
  shape boxes = [n; 4%nat] ->
  a_h <> 0 -> a_w <> 0 -> b_h <> 0 -> b_w <> 0 ->
  exists t1 t2 t,
    resize_boxes boxes [a_h; a_w] [b_h; b_w] = Ok t1 /\
    resize_boxes t1 [b_h; b_w] [c_h; c_w] = Ok t2 /\
    resize_boxes boxes [a_h; a_w] [c_h; c_w] = Ok t /\
    shape t2 = shape t /\
    forall idx, in_bounds (shape boxes) idx = true -> (data t2 idx == data t idx)%Q.
Proof.
  intros Hs Hah Haw Hbh Hbw.
  destruct (resize_boxes_columns boxes n a_h a_w b_h b_w Hs) as (t1 & E1 & Hs1 & Hd1).
  destruct (resize_boxes_columns t1 n b_h b_w c_h c_w Hs1) as (t2 & E2 & Hs2 & Hd2).
  destruct (resize_boxes_columns boxes n a_h a_w c_h c_w Hs) as (t & E & Hst & Hd).
  exists t1, t2, t. split; [exact E1|]. split; [exact E2|]. split; [exact E|].
  split; [congruence|].
  intros idx Hidx. rewrite Hs in Hidx.
  destruct idx as [|i [|k [|? ?]]]; cbn [in_bounds] in Hidx;
    try (rewrite ?andb_false_r in Hidx; discriminate).
  apply andb_true_iff in Hidx as [_ Hk]. rewrite andb_true_r in Hk.
  apply Nat.ltb_lt in Hk.
  destruct (Hd1 i) as (A0 & A1 & A2 & A3). destruct (Hd2 i) as (B0 & B1 & B2 & B3).
  destruct (Hd i) as (C0 & C1 & C2 & C3).
  destruct k as [|[|[|[|k]]]]; [| | | |lia].
  - rewrite B0, A0, C0. cbn [t_mul t_div t_of_Z Q_scalar]. apply Q_compose; assumption.
  - rewrite B1, A1, C1. cbn [t_mul t_div t_of_Z Q_scalar]. apply Q_compose; assumption.
  - rewrite B2, A2, C2. cbn [t_mul t_div t_of_Z Q_scalar]. apply Q_compose; assumption.
  - rewrite B3, A3, C3. cbn [t_mul t_div t_of_Z Q_scalar]. apply Q_compose; assumption.
Qed.

Lemma Q_ratio_nonneg (a b : Z) : 0 < a -> 0 <= b -> (0 <= inject_Z b / inject_Z a)%Q.
Proof.
  intros Ha Hb. apply Qle_shift_div_l.
  - rewrite <- (Zlt_Qlt 0). exact Ha.
  - rewrite Qmult_0_l. rewrite <- (Zle_Qle 0). exact Hb.
Qed.

(** Property X17. Over the rationals, for positive original sizes and non-
    negative new sizes, resize_boxes keeps xmin <= xmax and ymin <= ymax in
    every row. *)
Theorem resize_boxes_keeps_order (boxes : tensor Q) (n : nat)
        (old_h old_w new_h new_w : Z) (i : nat) :
  shape boxes = [n; 4%nat] ->
  0 < old_h -> 0 < old_w -> 0 <= new_h -> 0 <= new_w ->
  (data boxes [i; 0%nat] <= data boxes [i; 2%nat])%Q ->
  (data boxes [i; 1%nat] <= data boxes [i; 3%nat])%Q ->
  exists t, resize_boxes boxes [old_h; old_w] [new_h; new_w] = Ok t /\
    (data t [i; 0%nat] <= data t [i; 2%nat])%Q /\
    (data t [i; 1%nat] <= data t [i; 3%nat])%Q.
Proof.
  intros Hs Hoh How Hnh Hnw Hx Hy.
  destruct (resize_boxes_columns boxes n old_h old_w new_h new_w Hs)
    as (t & E & _ & Hd).
  exists t. split; [exact E|].
  destruct (Hd i) as (A0 & A1 & A2 & A3). rewrite A0, A1, A2, A3.
  cbn [t_mul t_div t_of_Z Q_scalar].
  split; apply Qmult_le_compat_r; auto using Q_ratio_nonneg.
Qed.

Lemma resize_boxes_compose_witness :
  exists t1 t2 t,
    resize_boxes example_boxes [600; 800] [640; 853] = Ok t1 /\
    resize_boxes t1 [640; 853] [300; 400] = Ok t2 /\
    resize_boxes example_boxes [600; 800] [300; 400] = Ok t /\
    shape t2 = shape t /\
    forall idx, in_bounds (shape example_boxes) idx = true ->
      (data t2 idx == data t idx)%Q.
Proof.
  apply (resize_boxes_compose example_boxes 1 600 800 640 853 300 400);
    [reflexivity | lia | lia | lia | lia].
Defined.

Lemma resize_boxes_keeps_order_witness :
  exists t, resize_boxes example_boxes [600; 800] [640; 853] = Ok t /\
    (data t [0%nat; 0%nat] <= data t [0%nat; 2%nat])%Q /\
    (data t [0%nat; 1%nat] <= data t [0%nat; 3%nat])%Q.
Proof.
  apply (resize_boxes_keeps_order example_boxes 1 600 800 640 853 0);
    [reflexivity | lia | lia | lia | lia | vm_compute; discriminate
    | vm_compute; discriminate].
Defined.

(** ** postprocess *)

Section PostprocessEdges.
Context {F : Type} `{TorchScalar F}.
Implicit Types σ : gmap positive (gmap string (tensor F)).

(** Property X18. In inference mode, for distinct predictions that all hold
    boxes, postprocess succeeds and rescales only as many predictions as the
    shorter of image_shapes and original_image_sizes has entries: the
    dictionary of a prediction at a later index is left unchanged. *)
Theorem postprocess_stops_at_shortest (self : @GeneralizedRCNNTransform F)
        (result : list positive) (image_shapes original_image_sizes : list (Z * Z))
        σ (i : nat) (pred : positive) :
  training self = false ->
  NoDup result -> (forall pred, pred ∈ result -> has_boxes σ pred) ->
  result !! i = Some pred ->
  (Nat.min (length image_shapes) (length original_image_sizes) <= i)%nat ->
  exists σ',
    postprocess self result image_shapes original_image_sizes σ = (Ok result, σ') /\
    σ' !! pred = σ !! pred.
Proof.
  intros Htr Hnd Hboxes Hi Hlen.
  destruct (postprocess_loop_rescales result image_shapes original_image_sizes σ
              Hnd Hboxes) as (σ' & Eloop & Hres).
  exists σ'. unfold postprocess. rewrite Htr. unfold mbind, M_bind, bind.
  rewrite Eloop. split; [reflexivity|].
  specialize (Hres i pred Hi). unfold rescaled_at in Hres.
  destruct (image_shapes !! i) as [im_s|] eqn:Es; [|exact Hres].
  destruct (original_image_sizes !! i) as [o_im_s|] eqn:Eo; [|exact Hres].
  apply lookup_lt_Some in Es, Eo. lia.
Qed.

(** Property X19. In inference mode a prediction without "boxes" makes
    postprocess fail with KeyError; the predictions before it have already
    been rescaled in place, and no other dictionary has changed. *)
Theorem postprocess_prediction_without_boxes (self : @GeneralizedRCNNTransform F)
        (before after : list positive) (pred : positive)
        (image_shapes original_image_sizes : list (Z * Z)) σ :
  training self = false ->
  NoDup before -> (forall p, p ∈ before -> has_boxes σ p) ->
  entry σ pred "boxes" = None ->
  (length before < length image_shapes)%nat ->
  (length before < length original_image_sizes)%nat ->
  exists σ',
    postprocess self (before ++ pred :: after) image_shapes original_image_sizes σ
    = (Raise KeyError, σ') /\
    (forall i p, before !! i = Some p ->
       rescaled_at σ σ' p (image_shapes !! i) (original_image_sizes !! i)) /\
    (forall l, l ∉ before -> σ' !! l = σ !! l).
Proof.
  intros Htr Hnd Hboxes Hnone Hls Hlo.
  unfold postprocess. rewrite Htr. unfold mbind, M_bind, bind.
  enough (Hloop : exists σ',
    postprocess_loop (before ++ pred :: after) image_shapes original_image_sizes σ
    = (Raise KeyError, σ') /\
    (forall i p, before !! i = Some p ->
       rescaled_at σ σ' p (image_shapes !! i) (original_image_sizes !! i)) /\
    (forall l, l ∉ before -> σ' !! l = σ !! l)).
  { destruct Hloop as (σ' & -> & Hrest). exists σ'. split; [reflexivity|exact Hrest]. }
  revert image_shapes original_image_sizes σ Hboxes Hnone Hls Hlo.
  induction Hnd as [|p before Hnotin Hnd IH];
    intros image_shapes original_image_sizes σ Hboxes Hnone Hls Hlo.
  - destruct image_shapes as [|im_s image_shapes]; [cbn in Hls; lia|].
    destruct original_image_sizes as [|o_im_s sizes]; [cbn in Hlo; lia|].
    exists σ. cbn [app]. rewrite postprocess_loop_step, Hnone.
    split; [reflexivity|]. split; [intros i p Hp; destruct i; discriminate|reflexivity].
  - destruct image_shapes as [|im_s image_shapes]; [cbn in Hls; lia|].
    destruct original_image_sizes as [|o_im_s sizes]; [cbn in Hlo; lia|].
    cbn [length] in Hls, Hlo.
    destruct (Hboxes p ltac:(left)) as (boxes & n & Eb & Hshape).
    destruct (resize_boxes_columns boxes n im_s.1 im_s.2 o_im_s.1 o_im_s.2 Hshape)
      as (boxes' & Er & _ & _).
    assert (Hpp : p <> pred) by (intros ->; congruence).
    set (σ1 := <[p := <["boxes" := boxes']> (default ∅ (σ !! p))]> σ).
    destruct (IH image_shapes sizes σ1) as (σ' & Eloop & Hres & Hframe).
    { intros q Hq. destruct (Hboxes q ltac:(right; exact Hq)) as (b & m & Eq & Hm).
      exists b, m. split; [|exact Hm]. unfold entry, σ1.
      rewrite lookup_insert_ne by (intros ->; contradiction). exact Eq. }
    { unfold entry, σ1. rewrite lookup_insert_ne by exact Hpp. exact Hnone. }
    { lia. } { lia. }
    exists σ'. cbn [app]. rewrite postprocess_loop_step, Eb, Er. fold σ1.
    split; [exact Eloop|]. split.
    + intros [|i] q Hq; cbn [lookup list_lookup] in Hq |- *.
      * injection Hq as <-. unfold rescaled_at.
        unfold entry in Eb. destruct (σ !! p) as [d|] eqn:Ed; [|discriminate].
        cbn in Eb. exists d, boxes, boxes'. split; [reflexivity|]. split; [exact Eb|].
        split; [exact Er|]. rewrite (Hframe p Hnotin). unfold σ1.
        rewrite lookup_insert_eq. reflexivity.
      * specialize (Hres i q Hq). unfold rescaled_at in *.
        assert (Hqp : p <> q).
        { intros ->. apply Hnotin. eapply list_elem_of_lookup_2. exact Hq. }
        unfold σ1 in Hres. rewrite lookup_insert_ne in Hres by exact Hqp. exact Hres.
    + intros l Hl. apply not_elem_of_cons in Hl as [Hne Hl].
      rewrite (Hframe l Hl). unfold σ1. apply lookup_insert_ne. congruence.
Qed.

(** Property X20. When the same dictionary is listed twice in the
    predictions, postprocess in inference mode rescales its boxes twice: the
    second rescaling starts from the result of the first. *)
Theorem postprocess_same_dictionary_twice (self : @GeneralizedRCNNTransform F)
        (pred : positive) (s1 s2 o1 o2 : Z * Z) σ :
  training self = false -> has_boxes σ pred ->
  exists d boxes once twice,
    σ !! pred = Some d /\ d !! "boxes" = Some boxes /\
    resize_boxes boxes [s1.1; s1.2] [o1.1; o1.2] = Ok once /\
    resize_boxes once [s2.1; s2.2] [o2.1; o2.2] = Ok twice /\
    postprocess self [pred; pred] [s1; s2] [o1; o2] σ
    = (Ok [pred; pred], <[pred := <["boxes" := twice]> d]> σ).
Proof.
  intros Htr (boxes & n & Eb & Hn).
  destruct (resize_boxes_columns boxes n s1.1 s1.2 o1.1 o1.2 Hn)
    as (once & E1 & Hn1 & _).
  destruct (resize_boxes_columns once n s2.1 s2.2 o2.1 o2.2 Hn1)
    as (twice & E2 & _ & _).
  unfold postprocess. rewrite Htr. unfold mbind, M_bind, bind.
  rewrite postprocess_loop_step, Eb, E1.
  unfold entry in Eb. destruct (σ !! pred) as [d|] eqn:Ed; [|discriminate]. cbn in Eb.
  cbn [default].
  rewrite postprocess_loop_step. unfold entry at 1.
  rewrite lookup_insert_eq. cbn [mbind option_bind]. rewrite lookup_insert_eq, E2.
  cbn [default postprocess_loop ret id].
  rewrite insert_insert_eq, insert_insert_eq.
  exists d, boxes, once, twice. auto.
Qed.
End PostprocessEdges.

(** ** resize followed by postprocess *)



(** ** forward and the dictionaries *)

Lemma only_boxes_changed_refl {F} T (σ : gmap positive (gmap string (tensor F))) :
  only_boxes_changed T σ σ.
Proof. split; reflexivity. Qed.

Lemma only_boxes_changed_trans {F} (T : positive -> Prop)
      (σ1 σ2 σ3 : gmap positive (gmap string (tensor F))) :
  only_boxes_changed T σ1 σ2 -> only_boxes_changed T σ2 σ3 ->
  only_boxes_changed T σ1 σ3.
Proof.
  intros [A1 B1] [A2 B2]. split.
  - intros l key Hk. rewrite A2, A1 by exact Hk. reflexivity.
  - intros l Hl. rewrite B2, B1 by exact Hl. reflexivity.
Qed.

Lemma only_boxes_changed_weaken {F} (T T' : positive -> Prop)
      (σ σ' : gmap positive (gmap string (tensor F))) :
  (forall l, T l -> T' l) -> only_boxes_changed T σ σ' -> only_boxes_changed T' σ σ'.
Proof. intros HT [A B]. split; [exact A|]. intros l Hl. apply B. auto. Qed.

Lemma getitem_nat_inv {A} (l : list A) (i : nat) (x : A) :
  getitem l (Z.of_nat i) = Ok x -> l !! i = Some x.
Proof.
  intros E. destruct (le_lt_dec (length l) i) as [Hle|Hlt].
  - rewrite getitem_nat_Raise in E by exact Hle. discriminate.
  - destruct (lookup_lt_is_Some_2 l i Hlt) as [y Hy].
    rewrite (getitem_lookup _ _ _ Hy) in E. congruence.
Qed.

Section ForwardFrame.
Context {F : Type} `{TorchScalar F}.
Variable bilinear : tensor F -> Q -> list nat -> F.
Implicit Types σ : gmap positive (gmap string (tensor F)).
Implicit Types targets : option (list (option positive)).

Lemma resize_frame (self : @GeneralizedRCNNTransform F) u image target σ r σ' :
  resize bilinear self u image target σ = (r, σ') ->
  only_boxes_changed (fun l => target = Some l) σ σ'.
Proof.
  unfold resize.
  destruct (last2 (shape image)) as [|h [|w [|? ?]]];
    try (intros [= _ <-]; apply only_boxes_changed_refl).
  unfold mbind, M_bind, bind, lift.
  destruct (resize_scale_factor self u h w) as [s|e];
    [|intros [= _ <-]; apply only_boxes_changed_refl].
  destruct (interpolate bilinear (unsqueeze0 image) s) as [t4|e];
    [|intros [= _ <-]; apply only_boxes_changed_refl].
  destruct (select0 t4 0) as [t3|e];
    [|intros [= _ <-]; apply only_boxes_changed_refl].
  destruct target as [t|]; [|intros [= _ <-]; apply only_boxes_changed_refl].
  rewrite dict_get_entry.
  destruct (entry σ t "boxes") as [bbox|];
    [|intros [= _ <-]; apply only_boxes_changed_refl].
  destruct (resize_boxes bbox _ _) as [bbox'|e];
    [|intros [= _ <-]; apply only_boxes_changed_refl].
  cbn. intros [= _ <-]. split.
  - intros l key Hk. apply entry_dict_set_other. exact Hk.
  - intros l Hl. apply lookup_insert_ne. congruence.
Qed.

(** One iteration, spelled out. *)
Lemma forward_image_step (self : @GeneralizedRCNNTransform F) u i image targets σ :
  forward_image bilinear self u i image targets σ =
  match (match targets with
         | Some ts => getitem ts (Z.of_nat i)
         | None => Ok None
         end) with
  | Raise e => (Raise e, σ)
  | Ok target_index =>
      if negb (dim image =? 3)%nat
      then (Raise (ValueError (ExpectedImages3d (shape image))), σ)
      else match normalize self image with
           | Raise e => (Raise e, σ)
           | Ok image1 =>
               match resize bilinear self u image1 target_index σ with
               | (Raise e, σ') => (Raise e, σ')
               | (Ok (image2, target2), σ') =>
                   (Ok (image2,
                        match targets, target2 with
                        | Some ts, Some _ => Some (setitem ts i target2)
                        | _, _ => targets
                        end), σ')
               end
           end
  end.
Proof.
  unfold forward_image, mbind, M_bind, bind.
  destruct targets as [ts|].
  - unfold lift at 1. destruct (getitem ts (Z.of_nat i)) as [t|e]; [|reflexivity].
    destruct (negb _); [reflexivity|]. unfold lift.
    destruct (normalize self image); [|reflexivity].
    destruct (resize _ _ _ _ _ _) as [[[image2 t2]|e] σ']; reflexivity.
  - cbn [ret]. destruct (negb _); [reflexivity|]. unfold lift.
    destruct (normalize self image); [|reflexivity].
    destruct (resize _ _ _ _ _ _) as [[[image2 t2]|e] σ']; reflexivity.
Qed.

Lemma forward_image_frame (self : @GeneralizedRCNNTransform F) u i image targets σ r σ' :
  forward_image bilinear self u i image targets σ = (r, σ') ->
  only_boxes_changed (listed targets) σ σ' /\
  (forall image' targets', r = Ok (image', targets') -> targets' = targets).
Proof.
  rewrite forward_image_step.
  destruct targets as [ts|].
  - destruct (getitem ts (Z.of_nat i)) as [t|e] eqn:Eget;
      [|intros [= <- <-]; split; [apply only_boxes_changed_refl|discriminate]].
    apply getitem_nat_inv in Eget.
    destruct (negb _);
      [intros [= <- <-]; split; [apply only_boxes_changed_refl|discriminate]|].
    destruct (normalize self image) as [image1|e];
      [|intros [= <- <-]; split; [apply only_boxes_changed_refl|discriminate]].
    pose proof (resize_frame self u image1 t σ) as Hframe.
    pose proof (resize_outcome bilinear self u image1 t σ) as Hout.
    destruct (resize _ _ _ _ _ _) as [[[image2 t2]|e] σ2].
    + destruct Hout as [_ ->]. intros [= <- <-]. split.
      * eapply only_boxes_changed_weaken; [|eapply Hframe; reflexivity].
        intros l ->. exists ts. split; [reflexivity|].
        eapply list_elem_of_lookup_2. exact Eget.
      * intros image' targets' [= _ <-]. destruct t as [l|]; [|reflexivity].
        unfold setitem. rewrite list_insert_id by exact Eget. reflexivity.
    + intros [= <- <-]. split; [|discriminate].
      eapply only_boxes_changed_weaken; [|eapply Hframe; reflexivity].
      intros l ->. exists ts. split; [reflexivity|].
      eapply list_elem_of_lookup_2. exact Eget.
  - destruct (negb _);
      [intros [= <- <-]; split; [apply only_boxes_changed_refl|discriminate]|].
    destruct (normalize self image) as [image1|e];
      [|intros [= <- <-]; split; [apply only_boxes_changed_refl|discriminate]].
    pose proof (resize_frame self u image1 None σ) as Hframe.
    pose proof (resize_outcome bilinear self u image1 None σ) as Hout.
    destruct (resize _ _ _ _ _ _) as [[[image2 t2]|e] σ2].
    + destruct Hout as [_ ->]. intros [= <- <-]. split.
      * eapply only_boxes_changed_weaken; [|eapply Hframe; reflexivity].
        intros l [=].
      * intros image' targets' [= _ <-]. reflexivity.
    + intros [= <- <-]. split; [|discriminate].
      eapply only_boxes_changed_weaken; [|eapply Hframe; reflexivity].
      intros l [=].
Qed.

Lemma forward_loop_frame (self : @GeneralizedRCNNTransform F) u images i0 targets σ r σ' :
  forward_loop bilinear self u i0 images targets σ = (r, σ') ->
  only_boxes_changed (listed targets) σ σ' /\
  (forall images' targets', r = Ok (images', targets') ->
     targets' = targets /\ length images' = length images).
Proof.
  revert i0 σ r σ'. induction images as [|image rest IH]; intros i0 σ r σ'.
  { cbn. intros [= <- <-]. split; [apply only_boxes_changed_refl|].
    intros images' targets' [= <- <-]. auto. }
  rewrite forward_loop_cons.
  destruct (forward_image _ _ _ _ _ _ _) as [[[image' targets1]|e] σ1] eqn:Eimg.
  - apply forward_image_frame in Eimg as [Hf1 Ht1].
    specialize (Ht1 image' targets1 eq_refl). subst targets1.
    destruct (forward_loop _ _ _ _ _ _ _) as [[[rest' targets2]|e] σ2] eqn:Eloop.
    + apply IH in Eloop as [Hf2 Ht2]. destruct (Ht2 rest' targets2 eq_refl) as [-> Hlen].
      intros [= <- <-]. split; [eapply only_boxes_changed_trans; eassumption|].
      intros images' targets' [= <- <-]. split; [reflexivity|cbn; lia].
    + apply IH in Eloop as [Hf2 _]. intros [= <- <-].
      split; [eapply only_boxes_changed_trans; eassumption|discriminate].
  - apply forward_image_frame in Eimg as [Hf1 _]. intros [= <- <-].
    split; [exact Hf1|discriminate].
Qed.

(** Property X22. forward on an empty list of images fails with IndexError
    (raised in batch_images), whatever the targets are, and changes no
    dictionary. *)
Theorem forward_empty_batch (self : @GeneralizedRCNNTransform F) tracing u targets σ :
  forward bilinear self tracing u [] targets σ = (Raise IndexError, σ).
Proof. destruct tracing; reflexivity. Qed.

(** Property X23. Whether forward succeeds or fails, it changes no entry
    other than "boxes", changes no dictionary that targets does not list,
    and changes nothing at all when targets is None. *)
Theorem forward_changes_only_boxes (self : @GeneralizedRCNNTransform F) tracing u
        images targets σ r σ' :
  forward bilinear self tracing u images targets σ = (r, σ') ->
  (forall l key, key <> "boxes" -> entry σ' l key = entry σ l key) /\
  (forall l, ~ listed targets l -> σ' !! l = σ !! l) /\
  (targets = None -> σ' = σ).
Proof.
  intros Eforward.
  pose proof (forward_outcome bilinear self tracing u images targets σ) as Hout.
  destruct (forward_loop _ _ _ _ _ _ _) as [[[images' targets']|e] σ1] eqn:Eloop.
  - apply forward_loop_frame in Eloop as [[Hkeys Hlocs] _].
    assert (σ' = σ1) as ->.
    { destruct Hout as [[_ E]|[il E]]; rewrite E in Eforward; congruence. }
    split; [exact Hkeys|]. split; [exact Hlocs|].
    intros ->. apply map_eq. intros l. apply Hlocs. intros (ts & [=] & _).
  - apply forward_loop_frame in Eloop as [[Hkeys Hlocs] _].
    assert (σ' = σ1) as -> by congruence.
    split; [exact Hkeys|]. split; [exact Hlocs|].
    intros ->. apply map_eq. intros l. apply Hlocs. intros (ts & [=] & _).
Qed.

(** Property X24. When forward succeeds it returns the targets object it was
    given, the list of images was not empty, one image size is recorded per
    image, and the batched tensor has four axes of which the first is the
    number of images. *)
Theorem forward_returns_its_targets (self : @GeneralizedRCNNTransform F) tracing u
        images targets σ image_list targets' σ' :
  forward bilinear self tracing u images targets σ = (Ok (image_list, targets'), σ') ->
  targets' = targets /\ images <> [] /\
  length (image_sizes image_list) = length images /\
  exists C Hh W, shape (tensors image_list) = [length images; C; Hh; W].
Proof.
  unfold forward, mbind, M_bind, bind.
  pose proof (forward_loop_outcome bilinear self u images 0 targets σ) as Hdims.
  destruct (forward_loop _ _ _ _ _ _ _) as [[[images' targets1]|e] σ1] eqn:Eloop;
    [|discriminate].
  apply forward_loop_frame in Eloop as [_ Ht].
  destruct (Ht images' targets1 eq_refl) as [-> Hlen].
  destruct Hdims as (Hall & _ & _). unfold lift.
  destruct images' as [|img rest'] eqn:Eimages'.
  { rewrite batch_images_empty. discriminate. }
  rewrite <- Eimages' in *.
  destruct (batch_images_packed tracing images' 32) as (t & Et & Hshape & _);
    [rewrite Eimages'; discriminate|exact Hall|lia|].
  rewrite Et.
  destruct (mapM _ _) as [sizes|e] eqn:Esizes; [|discriminate].
  cbn [ret]. intros [= <- <- <-]. cbn [image_sizes tensors].
  split; [reflexivity|]. split; [intros ->; rewrite Eimages' in Hlen; discriminate|].
  split.
  - clear -Esizes Hlen. rewrite <- Hlen. clear Hlen.
    revert sizes Esizes. induction images' as [|a l IH]; intros sizes Esizes.
    + injection Esizes as <-. reflexivity.
    + cbn [fmap list_fmap mapM] in Esizes.
      destruct (last2 (shape a)) as [|? [|? [|? ?]]]; try discriminate.
      cbn [mbind result_bind] in Esizes.
      change (list_fmap _ _ ?f l) with (f <$> l) in Esizes.
      destruct (mapM _ _) as [sizes'|] eqn:E'; [|discriminate].
      injection Esizes as <-. cbn. f_equal. apply IH. reflexivity.
  - rewrite Hshape, Hlen. eauto.
Qed.
End ForwardFrame.

(** ** forward in inference mode *)

Section ForwardSucceeds.
Context {F : Type} `{TorchScalar F}.
Variable bilinear : tensor F -> Q -> list nat -> F.
Implicit Types σ : gmap positive (gmap string (tensor F)).




End ForwardSucceeds.

(** ** batch_images with a stride of zero, and instances *)

Section BatchStride.
Context {F : Type} `{TorchScalar F}.

(** Property X12. With size_divisible = 0, batch_images outside ONNX tracing
    fails with ZeroDivisionError on every non-empty list of 3-D images. *)
Theorem batch_images_zero_stride (images : list (tensor F)) :
  images <> [] -> Forall (fun img => dim img = 3%nat) images ->
  batch_images false images 0 = Raise ZeroDivisionError.
Proof.
  intros Hne Hall.
  destruct images as [|img0 rest] eqn:Eimages; [congruence|]. rewrite <- Eimages in *.
  assert (Hmax : max_by_axis ((fun img => Z.of_nat <$> shape img) <$> images)
                 = Ok [axis_max 0 images; axis_max 1 images; axis_max 2 images]).
  { rewrite Eimages. apply max_by_axis_images. rewrite <- Eimages. exact Hall. }
  unfold batch_images. rewrite Hmax. cbn [mbind result_bind].
  rewrite (getitem_lookup _ 1%nat (axis_max 1 images)) by reflexivity.
  reflexivity.
Qed.
End BatchStride.

Lemma batch_images_zero_stride_witness :
  batch_images false [img_a; img_b] 0 = Raise ZeroDivisionError.
Proof.
  apply (batch_images_zero_stride [img_a; img_b]); [discriminate|repeat constructor].
Defined.

Lemma normalize_per_channel_witness :
  exists t, normalize (example_transform false) small_image = Ok t /\
    shape t = [3%nat; 2%nat; 3%nat] /\
    forall ch r col mu sd,
      (ch < 3)%nat -> (r < 2)%nat -> (col < 3)%nat ->
      image_mean (example_transform false) !! ch = Some mu ->
      image_std (example_transform false) !! ch = Some sd ->
      data t [ch; r; col] = t_div (t_sub (data small_image [ch; r; col]) mu) sd.
Proof.
  apply (normalize_per_channel (example_transform false) small_image 3 2 3);
    reflexivity.
Defined.

Lemma normalize_expands_single_channel_witness :
  exists t, normalize (example_transform false) mono_image = Ok t /\
    shape t = [3%nat; 2%nat; 2%nat] /\
    forall ch r col mu sd,
      (ch < 3)%nat -> (r < 2)%nat -> (col < 2)%nat ->
      image_mean (example_transform false) !! ch = Some mu ->
      image_std (example_transform false) !! ch = Some sd ->
      data t [ch; r; col] = t_div (t_sub (data mono_image [0%nat; r; col]) mu) sd.
Proof.
  apply (normalize_expands_single_channel (example_transform false) mono_image 2 2 3);
    reflexivity.
Defined.

Lemma normalize_channel_mismatch_witness :
  normalize (example_transform false) rgba_image = Raise RuntimeError.
Proof.
  apply (normalize_channel_mismatch (example_transform false) rgba_image 4 2 2);
    [reflexivity | cbn; lia | lia | cbn; lia].
Defined.

Lemma resize_size_training_in_min_size_witness :
  exists s, resize_size (example_transform true) (5 # 2) = Ok (inject_Z s) /\
            min_size (example_transform true) !! Z.to_nat (Qfloor (5 # 2)) = Some s.
Proof.
  apply (resize_size_training_in_min_size (example_transform true) (5 # 2));
    [reflexivity | vm_compute; discriminate | vm_compute; reflexivity].
Defined.

Lemma resize_size_scalar_min_size_witness :
  resize_size (set_training true (__init__ (Scalar 800) 1333 [1 # 2] [1 # 4]%Q)) (1 # 2)
  = Ok (inject_Z 800).
Proof.
  apply (resize_size_scalar_min_size true 800 1333 [1 # 2]%Q [1 # 4]%Q (1 # 2));
    [vm_compute; discriminate | vm_compute; reflexivity].
Defined.




Lemma resize_zero_edge_witness :
  resize no_interpolation (example_transform false) 0 empty_image None ∅
  = (Raise ZeroDivisionError, ∅).
Proof.
  apply (resize_zero_edge no_interpolation (example_transform false) 0 empty_image
           0 5 (inject_Z 640) None ∅); reflexivity.
Defined.

Lemma resize_empty_min_size_witness :
  resize no_interpolation sizeless_transform 0 example_image None ∅
  = (Raise IndexError, ∅).
Proof.
  apply (resize_empty_min_size no_interpolation sizeless_transform 0 example_image
           600 800 None ∅); reflexivity.
Defined.

Lemma resize_too_elongated_witness :
  resize no_interpolation (example_transform false) 0 long_image None ∅
  = (Raise RuntimeError, ∅).
Proof.
  apply (resize_too_elongated no_interpolation (example_transform false) 0 long_image
           3 1 2000 640 None ∅);
    [reflexivity | lia | lia | reflexivity | lia | vm_compute; reflexivity].
Defined.

Lemma resize_boxes_outcome_witness :
  (exists t, resize_boxes example_boxes [600; 800] [640; 853] = Ok t) /\
  (ValueError UnpackMismatch = ValueError UnpackMismatch \/
   (ValueError UnpackMismatch = IndexError /\ (dim example_boxes < 2)%nat /\
    Nat.min (length [640; 853; 3]) (length [600; 800; 3]) = 2%nat)).
Proof.
  split.
  - apply (proj1 (resize_boxes_outcome example_boxes [600; 800] [640; 853])).
    split; [reflexivity|]. exists 1%nat, []. reflexivity.
  - apply (proj2 (resize_boxes_outcome example_boxes [600; 800; 3] [640; 853; 3])).
    reflexivity.
Defined.

Lemma postprocess_stops_at_shortest_witness :
  exists σ',
    postprocess (example_transform false) [1%positive; 2%positive]
      [(640, 853)] [(600, 800); (600, 800)] example_predictions
    = (Ok [1%positive; 2%positive], σ') /\
    σ' !! 2%positive = example_predictions !! 2%positive.
Proof.
  apply (postprocess_stops_at_shortest (example_transform false)
           [1%positive; 2%positive] [(640, 853)] [(600, 800); (600, 800)]
           example_predictions 1 2%positive).
  - reflexivity.
  - exact example_predictions_NoDup.
  - exact example_predictions_have_boxes.
  - reflexivity.
  - cbn. lia.
Defined.

Lemma postprocess_prediction_without_boxes_witness :
  exists σ',
    postprocess (example_transform false) ([] ++ 1%positive :: [])
      [(640, 853)] [(600, 800)] example_without_boxes
    = (Raise KeyError, σ') /\
    (forall i p, [] !! i = Some p ->
       rescaled_at example_without_boxes σ' p ([(640, 853)] !! i) ([(600, 800)] !! i)) /\
    (forall l, l ∉ [] -> σ' !! l = example_without_boxes !! l).
Proof.
  apply (postprocess_prediction_without_boxes (example_transform false) [] []
           1%positive [(640, 853)] [(600, 800)] example_without_boxes).
  - reflexivity.
  - constructor.
  - intros p Hp. inversion Hp.
  - reflexivity.
  - cbn. lia.
  - cbn. lia.
Defined.

Lemma postprocess_same_dictionary_twice_witness :
  exists d boxes once twice,
    example_predictions !! 2%positive = Some d /\ d !! "boxes" = Some boxes /\
    resize_boxes boxes [640; 853] [600; 800] = Ok once /\
    resize_boxes once [640; 853] [600; 800] = Ok twice /\
    postprocess (example_transform false) [2%positive; 2%positive]
      [(640, 853); (640, 853)] [(600, 800); (600, 800)] example_predictions
    = (Ok [2%positive; 2%positive],
       <[2%positive := <["boxes" := twice]> d]> example_predictions).
Proof.
  apply (postprocess_same_dictionary_twice (example_transform false) 2%positive
           (640, 853) (640, 853) (600, 800) (600, 800) example_predictions).
  - reflexivity.
  - apply example_predictions_have_boxes. right. left.
Defined.


Lemma forward_changes_only_boxes_witness :
  let out := forward no_interpolation (example_transform false) false (fun _ => 0%Q)
               [small_image] (Some [Some 1%positive]) example_predictions in
  entry out.2 1%positive "scores" = entry example_predictions 1%positive "scores" /\
  out.2 !! 2%positive = example_predictions !! 2%positive.
Proof.
  intros out.
  pose proof (forward_changes_only_boxes no_interpolation (example_transform false)
                false (fun _ => 0%Q) [small_image] (Some [Some 1%positive])
                example_predictions out.1 out.2 (surjective_pairing out))
    as (Hkeys & Hlocs & _).
  split.
  - apply Hkeys. discriminate.
  - apply Hlocs. intros (ts & [= <-] & Hin).
    apply list_elem_of_singleton in Hin. discriminate.
Defined.

Lemma forward_returns_its_targets_witness :
  exists image_list σ',
    forward no_interpolation (example_transform false) false (fun _ => 0%Q)
            [small_image] (Some [Some 1%positive]) example_predictions
    = (Ok (image_list, Some [Some 1%positive]), σ') /\
    length (image_sizes image_list) = 1%nat.
Proof.
  destruct (forward no_interpolation (example_transform false) false (fun _ => 0%Q)
              [small_image] (Some [Some 1%positive]) example_predictions)
    as [[[image_list targets']|e] σ'] eqn:E.
  - destruct (forward_returns_its_targets no_interpolation (example_transform false)
                false (fun _ => 0%Q) [small_image] (Some [Some 1%positive])
                example_predictions image_list targets' σ' E) as (-> & _ & Hlen & _).
    exists image_list, σ'. split; [reflexivity|exact Hlen].
  - vm_compute in E. discriminate.
Defined.



(** ** returnAlexNet *)

Lemma window_conv1 (n : nat) :
  window_out n 11 4 1 = if (9 <=? n)%nat then Ok (conv1_out n) else Raise RuntimeError.
Proof.
  unfold window_out, conv1_out. destruct (Nat.leb_spec 9 n);
    destruct (Nat.ltb_spec (n + 2 * 1) 11); try lia; reflexivity.
Qed.

Lemma window_pool (n : nat) :
  window_out n 3 2 0 = if (3 <=? n)%nat then Ok (pool_out n) else Raise RuntimeError.
Proof.
  unfold window_out, pool_out. destruct (Nat.leb_spec 3 n);
    destruct (Nat.ltb_spec (n + 2 * 0) 3); try lia; [|reflexivity].
  cbn [orb Nat.eqb]. do 2 f_equal. f_equal. lia.
Qed.

Lemma window_same5 (n : nat) :
  window_out n 5 1 2 = if (1 <=? n)%nat then Ok n else Raise RuntimeError.
Proof.
  unfold window_out. destruct (Nat.leb_spec 1 n);
    destruct (Nat.ltb_spec (n + 2 * 2) 5); try lia; [|reflexivity].
  cbn [orb Nat.eqb]. rewrite Nat.div_1_r. f_equal. lia.
Qed.

Lemma window_same3 (n : nat) :
  window_out n 3 1 1 = if (1 <=? n)%nat then Ok n else Raise RuntimeError.
Proof.
  unfold window_out. destruct (Nat.leb_spec 1 n);
    destruct (Nat.ltb_spec (n + 2 * 1) 3); try lia; [|reflexivity].
  cbn [orb Nat.eqb]. rewrite Nat.div_1_r. f_equal. lia.
Qed.

Lemma div_succ_ge (m d k : nat) :
  (0 < d)%nat -> (1 <= k)%nat -> (k <= m / d + 1 <-> d * (k - 1) <= m)%nat.
Proof.
  intros Hd Hk. split.
  - intros H. pose proof (Nat.Div0.mul_div_le m d) as Hm.
    assert (H' : (k - 1 <= m / d)%nat) by lia.
    apply (Nat.mul_le_mono_l _ _ d) in H'. lia.
  - intros H. apply Nat.div_le_lower_bound in H; lia.
Qed.

Lemma conv1_out_ge (n k : nat) :
  (9 <= n)%nat -> (1 <= k)%nat -> (k <= conv1_out n <-> 4 * (k - 1) + 9 <= n)%nat.
Proof.
  intros Hn Hk. unfold conv1_out. rewrite div_succ_ge by lia. lia.
Qed.

Lemma pool_out_ge (n k : nat) :
  (3 <= n)%nat -> (1 <= k)%nat -> (k <= pool_out n <-> 2 * (k - 1) + 3 <= n)%nat.
Proof.
  intros Hn Hk. unfold pool_out. rewrite div_succ_ge by lia. lia.
Qed.

Lemma axis_chain_spec (n : nat) :
  axis_chain n = if (65 <=? n)%nat then Ok (alexnet_features n) else Raise RuntimeError.
Proof.
  unfold axis_chain, alexnet_features. rewrite window_conv1.
  destruct (Nat.leb_spec 9 n) as [H9|H9]; cbn [mbind result_bind];
    [|destruct (Nat.leb_spec 65 n); [lia|reflexivity]].
  rewrite window_pool.
  destruct (Nat.leb_spec 3 (conv1_out n)) as [Hc1|Hc1]; cbn [mbind result_bind].
  2:{ destruct (Nat.leb_spec 65 n) as [H65|]; [|reflexivity].
      pose proof (proj2 (conv1_out_ge n 3 H9 ltac:(lia)) ltac:(lia)). lia. }
  pose proof (proj2 (pool_out_ge (conv1_out n) 1 Hc1 ltac:(lia)) ltac:(lia)) as Hp1.
  rewrite window_same5. destruct (Nat.leb_spec 1 (pool_out (conv1_out n))); [|lia].
  cbn [mbind result_bind]. rewrite window_pool.
  destruct (Nat.leb_spec 3 (pool_out (conv1_out n))) as [Hp1'|Hp1'];
    cbn [mbind result_bind].
  2:{ destruct (Nat.leb_spec 65 n) as [H65|]; [|reflexivity].
      pose proof (proj2 (conv1_out_ge n 7 H9 ltac:(lia)) ltac:(lia)).
      pose proof (proj2 (pool_out_ge (conv1_out n) 3 Hc1 ltac:(lia)) ltac:(lia)). lia. }
  pose proof (proj2 (pool_out_ge _ 1 Hp1' ltac:(lia)) ltac:(lia)) as Hp2.
  do 3 (rewrite window_same3;
        destruct (Nat.leb_spec 1 (pool_out (pool_out (conv1_out n)))); [|lia];
        cbn [mbind result_bind]).
  rewrite window_pool.
  destruct (Nat.leb_spec 3 (pool_out (pool_out (conv1_out n)))) as [Hp2'|Hp2'].
  - destruct (Nat.leb_spec 65 n) as [|H65]; [reflexivity|].
    pose proof (proj1 (pool_out_ge _ 3 Hp1' ltac:(lia)) Hp2').
    pose proof (proj1 (pool_out_ge _ 7 Hc1 ltac:(lia)) ltac:(lia)).
    pose proof (proj1 (conv1_out_ge n 15 H9 ltac:(lia)) ltac:(lia)). lia.
  - destruct (Nat.leb_spec 65 n) as [H65|]; [|reflexivity].
    pose proof (proj2 (conv1_out_ge n 15 H9 ltac:(lia)) ltac:(lia)).
    pose proof (proj2 (pool_out_ge (conv1_out n) 7 Hc1 ltac:(lia)) ltac:(lia)).
    pose proof (proj2 (pool_out_ge _ 3 Hp1' ltac:(lia)) ltac:(lia)). lia.
Qed.

Lemma axis_chain_inv (n v : nat) :
  axis_chain n = Ok v ->
  exists c1 p1 c2 p2 c3 c4 c5,
    window_out n 11 4 1 = Ok c1 /\ window_out c1 3 2 0 = Ok p1 /\
    window_out p1 5 1 2 = Ok c2 /\ window_out c2 3 2 0 = Ok p2 /\
    window_out p2 3 1 1 = Ok c3 /\ window_out c3 3 1 1 = Ok c4 /\
    window_out c4 3 1 1 = Ok c5 /\ window_out c5 3 2 0 = Ok v.
Proof.
  unfold axis_chain.
  destruct (window_out n 11 4 1) as [c1|] eqn:E1; [|discriminate]. cbn [mbind result_bind].
  destruct (window_out c1 3 2 0) as [p1|] eqn:E2; [|discriminate]. cbn [mbind result_bind].
  destruct (window_out p1 5 1 2) as [c2|] eqn:E3; [|discriminate]. cbn [mbind result_bind].
  destruct (window_out c2 3 2 0) as [p2|] eqn:E4; [|discriminate]. cbn [mbind result_bind].
  destruct (window_out p2 3 1 1) as [c3|] eqn:E5; [|discriminate]. cbn [mbind result_bind].
  destruct (window_out c3 3 1 1) as [c4|] eqn:E6; [|discriminate]. cbn [mbind result_bind].
  destruct (window_out c4 3 1 1) as [c5|] eqn:E7; [|discriminate]. cbn [mbind result_bind].
  intros E. exists c1, p1, c2, p2, c3, c4, c5. repeat split; assumption.
Qed.

Lemma result_eq_by_ok {A} (a b : result A) :
  (forall v, a = Ok v <-> b = Ok v) ->
  (forall e, a = Raise e -> e = RuntimeError) ->
  (forall e, b = Raise e -> e = RuntimeError) ->
  a = b.
Proof.
  intros Hok Ha Hb. destruct a as [v|e].
  - symmetry. apply Hok. reflexivity.
  - destruct b as [v|e'].
    + apply Hok. reflexivity.
    + rewrite (Ha e eq_refl), (Hb e' eq_refl). reflexivity.
Qed.

Lemma window_out_error (n k s p : nat) (e : exn) :
  window_out n k s p = Raise e -> e = RuntimeError.
Proof. unfold window_out. case_match; congruence. Qed.

Lemma layer_shape_error (l : layer) (input : list nat) (e : exn) :
  layer_shape l input = Raise e -> e = RuntimeError.
Proof.
  destruct l as [cin cout [kh kw] stride p| |k s| |fin fout|q]; cbn [layer_shape].
  - destruct (default (1, 1)%nat stride) as [sh sw].
    destruct input as [|n [|c [|h [|w [|]]]]]; try congruence.
    destruct (c =? cin)%nat; [|congruence].
    destruct (window_out h kh sh p) eqn:Eh; cbn [mbind result_bind];
      [|intros [= <-]; exact (window_out_error _ _ _ _ _ Eh)].
    destruct (window_out w kw sw p) eqn:Ew; cbn [mbind result_bind];
      [discriminate|intros [= <-]; exact (window_out_error _ _ _ _ _ Ew)].
  - discriminate.
  - destruct input as [|n [|c [|h [|w [|]]]]]; try congruence.
    destruct (window_out h k s 0) eqn:Eh; cbn [mbind result_bind];
      [|intros [= <-]; exact (window_out_error _ _ _ _ _ Eh)].
    destruct (window_out w k s 0) eqn:Ew; cbn [mbind result_bind];
      [discriminate|intros [= <-]; exact (window_out_error _ _ _ _ _ Ew)].
  - destruct input; congruence.
  - destruct (rev input); [congruence|]. case_match; congruence.
  - discriminate.
Qed.

Lemma sequential_shape_error (net : list layer) (input : list nat) (e : exn) :
  sequential_shape net input = Raise e -> e = RuntimeError.
Proof.
  unfold sequential_shape. revert input.
  induction net as [|l net IH]; intros input; cbn [foldM]; [discriminate|].
  destruct (layer_shape l input) eqn:El; cbn [mbind result_bind].
  - apply IH.
  - intros [= <-]. exact (layer_shape_error _ _ _ El).
Qed.

Lemma sequential_shape_app (a b : list layer) (input : list nat) :
  sequential_shape (a ++ b) input = sequential_shape a input ≫= sequential_shape b.
Proof.
  unfold sequential_shape. revert input.
  induction a as [|l a IH]; intros input; cbn [app foldM]; [reflexivity|].
  destruct (layer_shape l input); cbn [mbind result_bind]; [apply IH|reflexivity].
Qed.

Lemma axis_chain_error (n : nat) (e : exn) :
  axis_chain n = Raise e -> e = RuntimeError.
Proof. rewrite axis_chain_spec. case_match; congruence. Qed.

Ltac sequential_step H :=
  cbn [foldM layer_shape default id Nat.eqb mbind result_bind] in H.

Ltac window_step H :=
  match type of H with
  | context [window_out ?a ?b ?c ?d] =>
      let E := fresh "E" in
      destruct (window_out a b c d) eqn:E; sequential_step H; [|discriminate H]
  end.

(** The convolution and pooling layers want one input channel and act on
    the two spatial axes independently. *)
Lemma alexnet_features_shape (n c h w : nat) :
  sequential_shape (take 13 returnAlexNet) [n; c; h; w] =
  if (c =? 1)%nat
  then fh ← axis_chain h; fw ← axis_chain w; Ok [n; 256%nat; fh; fw]
  else Raise RuntimeError.
Proof.
  destruct (Nat.eqb_spec c 1) as [->|Hc].
  2:{ unfold sequential_shape. cbn [take returnAlexNet foldM layer_shape default].
      rewrite (proj2 (Nat.eqb_neq c 1) Hc). reflexivity. }
  apply result_eq_by_ok.
  - intros v. split.
    + unfold sequential_shape. cbn [take returnAlexNet]. intros Hrun.
      sequential_step Hrun. do 16 window_step Hrun.
      unfold axis_chain.
      repeat match goal with
             | E : window_out _ _ _ _ = Ok _ |- _ =>
                 rewrite E; cbn [mbind result_bind]; clear E
             end.
      exact Hrun.
    + intros Hrun.
      destruct (axis_chain h) as [fh|] eqn:Eh; [|discriminate Hrun].
      destruct (axis_chain w) as [fw|] eqn:Ew; [|discriminate Hrun].
      cbn [mbind result_bind] in Hrun.
      destruct (axis_chain_inv _ _ Eh)
        as (a1 & a2 & a3 & a4 & a5 & a6 & a7 & A1 & A2 & A3 & A4 & A5 & A6 & A7 & A8).
      destruct (axis_chain_inv _ _ Ew)
        as (b1 & b2 & b3 & b4 & b5 & b6 & b7 & B1 & B2 & B3 & B4 & B5 & B6 & B7 & B8).
      unfold sequential_shape. cbn [take returnAlexNet].
      cbn [foldM layer_shape default id Nat.eqb mbind result_bind].
      rewrite A1, B1; cbn [foldM layer_shape default id Nat.eqb mbind result_bind].
      rewrite A2, B2; cbn [foldM layer_shape default id Nat.eqb mbind result_bind].
      rewrite A3, B3; cbn [foldM layer_shape default id Nat.eqb mbind result_bind].
      rewrite A4, B4; cbn [foldM layer_shape default id Nat.eqb mbind result_bind].
      rewrite A5, B5; cbn [foldM layer_shape default id Nat.eqb mbind result_bind].
      rewrite A6, B6; cbn [foldM layer_shape default id Nat.eqb mbind result_bind].
      rewrite A7, B7; cbn [foldM layer_shape default id Nat.eqb mbind result_bind].
      rewrite A8, B8; cbn [foldM layer_shape default id Nat.eqb mbind result_bind].
      exact Hrun.
  - apply sequential_shape_error.
  - intros e. destruct (axis_chain h) eqn:Eh; cbn [mbind result_bind].
    + destruct (axis_chain w) eqn:Ew; cbn [mbind result_bind]; [discriminate|].
      intros [= <-]. exact (axis_chain_error _ _ Ew).
    + intros [= <-]. exact (axis_chain_error _ _ Eh).
Qed.

(** Flatten and the three linear layers need 256 * 5 * 5 features. *)
Lemma alexnet_classifier_shape (n a b : nat) :
  sequential_shape (drop 13 returnAlexNet) [n; 256%nat; a; b] =
  if (a * b =? 25)%nat then Ok [n; 10%nat] else Raise RuntimeError.
Proof.
  unfold sequential_shape. cbn [drop returnAlexNet].
  cbn [foldM layer_shape fold_right rev app mbind result_bind].
  replace (256 * (a * (b * 1)) =? 256 * 5 * 5)%nat with (a * b =? 25)%nat.
  2:{ destruct (Nat.eqb_spec (a * b) 25) as [E|E]; symmetry.
      - apply Nat.eqb_eq. rewrite Nat.mul_1_r, E. reflexivity.
      - apply Nat.eqb_neq. rewrite Nat.mul_1_r. intros E'. apply E.
        rewrite <- Nat.mul_assoc in E'. apply Nat.mul_cancel_l in E'; [exact E'|discriminate]. }
  destruct (a * b =? 25)%nat; cbn [mbind result_bind]; [|reflexivity].
  cbn [rev app]. rewrite Nat.eqb_refl. cbn [mbind result_bind rev app].
  rewrite Nat.eqb_refl. reflexivity.
Qed.

(** An axis of [k] cells in front of Flatten needs 32 k + 33 input pixels. *)
Lemma alexnet_features_ge (n k : nat) :
  (65 <= n)%nat -> (1 <= k)%nat ->
  (k <= alexnet_features n <-> 32 * k + 33 <= n)%nat.
Proof.
  intros Hn Hk. unfold alexnet_features.
  assert (H9 : (9 <= n)%nat) by lia.
  pose proof (proj2 (conv1_out_ge n 15 H9 ltac:(lia)) ltac:(lia)) as Hc1.
  assert (Hc1' : (3 <= conv1_out n)%nat) by lia.
  pose proof (proj2 (pool_out_ge _ 7 Hc1' ltac:(lia)) ltac:(lia)) as Hp1.
  assert (Hp1' : (3 <= pool_out (conv1_out n))%nat) by lia.
  pose proof (proj2 (pool_out_ge _ 3 Hp1' ltac:(lia)) ltac:(lia)) as Hp2.
  rewrite (pool_out_ge _ k Hp2 Hk).
  rewrite (pool_out_ge _ (2 * (k - 1) + 3) Hp1' ltac:(lia)).
  rewrite (pool_out_ge _ (2 * (2 * (k - 1) + 3 - 1) + 3) Hc1' ltac:(lia)).
  rewrite (conv1_out_ge n (2 * (2 * (2 * (k - 1) + 3 - 1) + 3 - 1) + 3) H9 ltac:(lia)). lia.
Qed.

Lemma alexnet_features_closed (n : nat) :
  (65 <= n)%nat -> alexnet_features n = ((n - 33) / 32)%nat.
Proof.
  intros Hn.
  pose proof (proj2 (alexnet_features_ge n 1 Hn ltac:(lia)) ltac:(lia)) as H1.
  pose proof (proj1 (alexnet_features_ge n (alexnet_features n) Hn H1) ltac:(lia)) as Hlo.
  pose proof (alexnet_features_ge n (S (alexnet_features n)) Hn ltac:(lia)) as Hhi.
  assert (Hhi' : (n < 32 * S (alexnet_features n) + 33)%nat).
  { apply Nat.nle_gt. intros H. apply Hhi in H. lia. }
  generalize dependent (alexnet_features n). intros f _ Hlo _ Hhi'.
  apply (Nat.div_unique _ 32 f (n - 33 - 32 * f)); lia.
Qed.

(** The whole network on a batched input. *)
Lemma alexnet_shape_spec (n c h w : nat) :
  sequential_shape returnAlexNet [n; c; h; w] =
  if ((c =? 1) && (65 <=? h) && (65 <=? w)
      && ((h - 33) / 32 * ((w - 33) / 32) =? 25))%nat
  then Ok [n; 10%nat] else Raise RuntimeError.
Proof.
  change returnAlexNet with (take 13 returnAlexNet ++ drop 13 returnAlexNet).
  rewrite sequential_shape_app, alexnet_features_shape.
  destruct (c =? 1)%nat; cbn [andb mbind result_bind]; [|reflexivity].
  rewrite !axis_chain_spec.
  destruct (Nat.leb_spec 65 h) as [Hh|Hh]; cbn [andb mbind result_bind]; [|reflexivity].
  destruct (Nat.leb_spec 65 w) as [Hw|Hw]; cbn [andb mbind result_bind]; [|reflexivity].
  rewrite alexnet_classifier_shape, !alexnet_features_closed by assumption.
  reflexivity.
Qed.

(** Property X26. The network of returnAlexNet maps a batch [n, c, h, w] to
    an output exactly when c = 1, h and w are at least 65 and floor((h - 33)
    / 32) * floor((w - 33) / 32) = 25, and the output shape is then [n, 10]. *)
Theorem alexnet_accepts (n c h w : nat) (out : list nat) :
  sequential_shape returnAlexNet [n; c; h; w] = Ok out <->
  c = 1%nat /\ (65 <= h)%nat /\ (65 <= w)%nat /\
  ((h - 33) / 32 * ((w - 33) / 32) = 25)%nat /\ out = [n; 10%nat].
Proof.
  rewrite alexnet_shape_spec.
  destruct (Nat.eqb_spec c 1) as [Hc|Hc]; cbn [andb].
  2:{ split; [discriminate|]. intros (? & _). contradiction. }
  destruct (Nat.leb_spec 65 h) as [Hh|Hh]; cbn [andb].
  2:{ split; [discriminate|]. intros (_ & ? & _). lia. }
  destruct (Nat.leb_spec 65 w) as [Hw|Hw]; cbn [andb].
  2:{ split; [discriminate|]. intros (_ & _ & ? & _). lia. }
  destruct (Nat.eqb_spec ((h - 33) / 32 * ((w - 33) / 32)) 25) as [E|E].
  - split; [intros [= <-]; auto|]. intros (_ & _ & _ & _ & ->). reflexivity.
  - split; [discriminate|]. intros (_ & _ & _ & ? & _). contradiction.
Qed.

(** Property X27. On a batch of square one-channel images the network of
    returnAlexNet returns [n, 10] for sides of 193 to 224 pixels and fails
    with RuntimeError for every other side, 28 among them. *)
Theorem alexnet_square_inputs (n s : nat) :
  sequential_shape returnAlexNet [n; 1%nat; s; s] =
  if ((193 <=? s) && (s <=? 224))%nat then Ok [n; 10%nat] else Raise RuntimeError.
Proof.
  rewrite alexnet_shape_spec. cbn [Nat.eqb andb].
  destruct (Nat.leb_spec 193 s) as [Hlo|Hlo]; cbn [andb].
  - destruct (Nat.leb_spec 65 s) as [_|]; [|lia]. cbn [andb].
    destruct (Nat.leb_spec s 224) as [Hhi|Hhi].
    + replace ((s - 33) / 32)%nat with 5%nat; [reflexivity|].
      apply (Nat.div_unique _ 32 5 (s - 33 - 160)); lia.
    + destruct (Nat.eqb_spec ((s - 33) / 32 * ((s - 33) / 32)) 25) as [E|E];
        [|reflexivity].
      assert (6 <= (s - 33) / 32)%nat by (apply Nat.div_le_lower_bound; lia). nia.
  - destruct (Nat.leb_spec 65 s) as [Hs|]; [|reflexivity]. cbn [andb].
    destruct (Nat.eqb_spec ((s - 33) / 32 * ((s - 33) / 32)) 25) as [E|E];
      [|reflexivity].
    assert ((s - 33) / 32 < 5)%nat by (apply Nat.Div0.div_lt_upper_bound; lia). nia.
Qed.
